(** * Craigslist vehicle records: CSV-in-zip to database migration

    A shallow embedding of [helper_funcs.py] and the properties of its
    field normalizers, of the streaming record reader and of the batching
    migration driver.

    Conventions of the embedding:
    - a Python [str] is a [string]; its characters are the code points
      0..255, on which [str.strip] and the regular expression class [\d]
      are modelled exactly;
    - a Python [int] is a [Z]; [int()] of a string keeps the limit that
      CPython sets on the number of digits;
    - a Python [dict] keyed by column names is a [gmap string Value];
    - exceptions are values of [Exn], carried in the left summand of a sum;
    - the decoded CSV entry is the list of rows that [csv.reader] produces,
      header row first: the archive is taken to open, to decode and to
      parse without error. *)

From Stdlib Require Import ZArith Ascii String List Lia.
From Stdlib Require Import DecimalString DecimalPos.
From stdpp Require Import base option list strings gmap fin_maps.

Local Open Scope string_scope.
Local Open Scope Z_scope.
Local Open Scope list_scope.

(** ** Python values and exceptions *)

(** The values a cell of a record dict can hold: [None], a [str] or an [int]. *)
Inductive Value : Type :=
  | VNone
  | VStr (s : string)
  | VInt (n : Z).

Inductive Exn : Type :=
  | AttributeError
  | TypeError
  | ValueError
  | KeyError (key : string)
  | RuntimeError.

#[global] Instance Value_eq_dec : EqDecision Value.
Proof. solve_decision. Defined.

#[global] Instance Exn_eq_dec : EqDecision Exn.
Proof. solve_decision. Defined.

Abbreviation NormalizedRow := (gmap string Value).

(** ** Field Normalizer *)

Module FieldNormalizer.

(** [str.isspace] on the code points 0..255: TAB, LF, VT, FF, CR, the
    separators FS, GS, RS, US, SPACE, NEL and NO-BREAK SPACE. *)
Definition is_space (c : ascii) : bool :=
  let n := Z.of_N (N_of_ascii c) in
  ((9 <=? n) && (n <=? 13)) || ((28 <=? n) && (n <=? 32))
  || (n =? 133) || (n =? 160).

(** [\d] on the code points 0..255: the ASCII digits. *)
Definition is_digit (c : ascii) : bool :=
  let n := Z.of_N (N_of_ascii c) in (48 <=? n) && (n <=? 57).

Definition digit_value (c : ascii) : Z := Z.of_N (N_of_ascii c) - 48.

Fixpoint lstrip (s : string) : string :=
  match s with
  | EmptyString => EmptyString
  | String c s' => if is_space c then lstrip s' else s
  end.

Fixpoint rstrip (s : string) : string :=
  match s with
  | EmptyString => EmptyString
  | String c s' =>
      match rstrip s' with
      | EmptyString => if is_space c then EmptyString else String c EmptyString
      | t => String c t
      end
  end.

(** [str.strip()] without argument. *)
Definition strip (s : string) : string := rstrip (lstrip s).

(** [input_str = input_str.strip(); return input_str if input_str != "" else None] *)
Definition strip_strings_and_replace_empty_strings_with_none
    (input_str : string) : Value :=
  let input_str := strip input_str in
  if decide (input_str ≠ "") then VStr input_str else VNone.

(** The same function called on an arbitrary Python value: only a [str]
    has the method [strip]; the attribute lookup fails on [None] and on
    an [int]. *)
Definition call_strip_strings_and_replace_empty_strings_with_none
    (input_str : Value) : Exn + Value :=
  match input_str with
  | VStr s => inr (strip_strings_and_replace_empty_strings_with_none s)
  | VNone | VInt _ => inl AttributeError
  end.

(** The longest prefix of decimal digits. *)
Fixpoint leading_digits (s : string) : string :=
  match s with
  | EmptyString => EmptyString
  | String c s' => if is_digit c then String c (leading_digits s') else EmptyString
  end.

(** [match(r"(\d+)", s)]: the match is anchored at position 0 and [\d+] is
    greedy; the result is group 1 of the match object, or [None]. *)
Definition re_match_digits (s : string) : option string :=
  match leading_digits s with
  | EmptyString => None
  | ds => Some ds
  end.

Fixpoint int_acc (acc : Z) (ds : string) : Z :=
  match ds with
  | EmptyString => acc
  | String c ds' => int_acc (10 * acc + digit_value c) ds'
  end.

(** The greatest number of digits of a string that [int] converts: the
    default of CPython ([sys.int_info.default_max_str_digits]), which the
    source does not change. *)
Definition int_max_str_digits : Z := 4300.

(** [int(ds)] on a string of decimal digits: the value of the digits, read
    from the left; [ValueError] on a string of more digits than the limit. *)
Definition int (ds : string) : Exn + Z :=
  if Z.of_nat (String.length ds) <=? int_max_str_digits
  then inr (int_acc 0 ds)
  else inl ValueError.

Definition extract_cylinders_int_value_from_cylinders_str
    (cylinders_str : Value) : Exn + Value :=
  match cylinders_str with
  | VNone => inr VNone
  | VStr s =>
      match re_match_digits s with
      | Some group1 =>
          match int group1 with
          | inr n => inr (VInt n)
          | inl e => inl e
          end
      | None => inr VNone
      end
  | VInt _ => inl TypeError
  end.

(** A string made of decimal digits only. *)
Fixpoint all_digits (ds : string) : bool :=
  match ds with
  | EmptyString => true
  | String c ds' => is_digit c && all_digits ds'
  end.

End FieldNormalizer.

Import FieldNormalizer.

(** ** Streaming Record Reader *)

Module Reader.

(** [dict(pairs)]: pairs are inserted from left to right, so of two pairs
    with the same key the later one gives the value. *)
Definition dict (pairs : list (string * Value)) : NormalizedRow :=
  fold_left (fun d kv => <[kv.1 := kv.2]> d) pairs ∅.

(** The body of the [for] loop of the generator, up to the [yield]:
    [[
      line = map(strip_strings_and_replace_empty_strings_with_none, line)
      line_record_dict = dict(zip(csv_headers, line))
      line_record_dict["cylinders"] = extract_cylinders_int_value_from_cylinders_str(
          line_record_dict["cylinders"])
    ]]
    [zip] stops at the shorter of its arguments; subscripting a dict with a
    key it does not hold raises [KeyError]. *)
Definition normalize_line (csv_headers line : list string) : Exn + NormalizedRow :=
  let line := map strip_strings_and_replace_empty_strings_with_none line in
  let line_record_dict := dict (zip csv_headers line) in
  match line_record_dict !! "cylinders" with
  | None => inl (KeyError "cylinders")
  | Some cylinders_str =>
      match extract_cylinders_int_value_from_cylinders_str cylinders_str with
      | inr cylinders => inr (<["cylinders" := cylinders]> line_record_dict)
      | inl e => inl e
      end
  end.

(** The generator object returned by
    [create_csv_records_iterator_from_zip_file]. Its body runs only when
    [next] is called: it is created unstarted, holding the rows of the CSV
    entry; once started it is suspended at the [yield], holding the
    headers and the lines not read yet; it is closed after it returned or
    raised. *)
Inductive Generator : Type :=
  | Created (csv_rows : list (list string))
  | Suspended (csv_headers : list string) (csv_reader : list (list string))
  | Closed.

(** What [next(generator)] gives its caller. *)
Inductive Next : Type :=
  | Yield (line_record_dict : NormalizedRow)
  | StopIteration
  | Raise (e : Exn).

(** [for line in csv_reader: ...; yield line_record_dict] resumed from its
    head. *)
Definition resume (csv_headers : list string) (csv_reader : list (list string))
    : Next * Generator :=
  match csv_reader with
  | [] => (StopIteration, Closed)
  | line :: csv_reader' =>
      match normalize_line csv_headers line with
      | inr line_record_dict => (Yield line_record_dict, Suspended csv_headers csv_reader')
      | inl e => (Raise e, Closed)
      end
  end.

(** [next(csv_lines_iterator)]. On an entry without any row,
    [csv_headers = next(csv_reader)] raises [StopIteration] inside the
    generator body, which the generator turns into a [RuntimeError]. *)
Definition next (g : Generator) : Next * Generator :=
  match g with
  | Created [] => (Raise RuntimeError, Closed)
  | Created (csv_headers :: csv_reader) => resume csv_headers csv_reader
  | Suspended csv_headers csv_reader => resume csv_headers csv_reader
  | Closed => (StopIteration, Closed)
  end.

Definition create_csv_records_iterator_from_zip_file
    (csv_rows : list (list string)) : Generator :=
  Created csv_rows.

(** A generator that has not started behaves as one suspended before its
    first line. *)
Definition started (g : Generator) : Generator :=
  match g with
  | Created (csv_headers :: csv_reader) => Suspended csv_headers csv_reader
  | _ => g
  end.

(** The lines that a generator has still to read. *)
Definition remaining (g : Generator) : list (list string) :=
  match g with
  | Created (_ :: csv_reader) => csv_reader
  | Suspended _ csv_reader => csv_reader
  | _ => []
  end.

End Reader.

Import Reader.

(** ** Migration Driver *)

Module Driver.

Section Driver.

(** The record class of [models.py] and the validation error of the
    validation library are not part of [helper_funcs.py]: the driver is
    modelled over any type of validated records, any type of validation
    errors and any validator. *)
Context {CraigslistVehicleRecord PydanticValidationError : Type}.

(** [validate_craigslist_vehicle_record_dict]: the validated record, or the
    [PydanticValidationError] it raises. *)
Variable validate_craigslist_vehicle_record_dict :
  NormalizedRow -> PydanticValidationError + CraigslistVehicleRecord.

(** What the driver prints, one constructor per [print] of the source. *)
Inductive Output : Type :=
  | PrintProgress (total_rows_parsed : Z)
  | PrintValidationError (e : PydanticValidationError)
  | PrintRecordDict (current_record_dict : NormalizedRow)
  | PrintSeparator
  | PrintStartingInsertion (batch_size : Z)
  | PrintFinishedInsertion (batch_size total_rows_inserted : Z)
  | PrintTotalRowsParsed (total_rows_parsed : Z)
  | PrintTotalRowsInserted (total_rows_inserted : Z).

(** The local variables of the driver, together with its two effects: the
    calls made to [insert_batch_of_craigslist_vehicle_records] (the batch
    passed to each call, in call order) and the standard output. *)
Record State : Type := mkState {
  csv_lines_iterator : Generator;
  rows_count_in_current_batch : Z;
  total_rows_parsed : Z;
  total_rows_inserted : Z;
  current_batch : list CraigslistVehicleRecord;
  insert_calls : list (list CraigslistVehicleRecord);
  stdout : list Output
}.

Definition print (o : Output) (st : State) : State :=
  mkState (csv_lines_iterator st) (rows_count_in_current_batch st)
    (total_rows_parsed st) (total_rows_inserted st) (current_batch st)
    (insert_calls st) (stdout st ++ [o]).

(** [insert_batch_of_craigslist_vehicle_records(batch)]: one session, one
    [add_all], one [commit]. The source has no code for a failing commit;
    the model is of the runs in which every insert succeeds, and keeps of
    an insert the batch that was passed to it. *)
Definition insert_batch_of_craigslist_vehicle_records
    (batch_of_craigslist_vehicle_records : list CraigslistVehicleRecord)
    (st : State) : State :=
  mkState (csv_lines_iterator st) (rows_count_in_current_batch st)
    (total_rows_parsed st) (total_rows_inserted st) (current_batch st)
    (insert_calls st ++ [batch_of_craigslist_vehicle_records]) (stdout st).

(** The four statements shared by the [else] branch of the loop and by the
    block after the loop:
    [[
      print(f"starting batch insertion of {batch_size} records")
      insert_batch_of_craigslist_vehicle_records(current_batch)
      total_rows_inserted += rows_count_in_current_batch
      print(f"finished batch insertion of {batch_size} records, ...")
    ]] *)
Definition insert_current_batch (batch_size : Z) (st : State) : State :=
  let st := print (PrintStartingInsertion batch_size) st in
  let st := insert_batch_of_craigslist_vehicle_records (current_batch st) st in
  let st :=
    mkState (csv_lines_iterator st) (rows_count_in_current_batch st)
      (total_rows_parsed st)
      (total_rows_inserted st + rows_count_in_current_batch st)
      (current_batch st) (insert_calls st) (stdout st) in
  print (PrintFinishedInsertion batch_size (total_rows_inserted st)) st.

(** [max_rows_to_parse and total_rows_parsed >= max_rows_to_parse]: [None]
    and [0] are falsy. *)
Definition limit_reached (max_rows_to_parse : option Z) (total_rows_parsed : Z)
    : bool :=
  match max_rows_to_parse with
  | None => false
  | Some m => negb (m =? 0) && (m <=? total_rows_parsed)
  end.

(** How one turn of [while True] ends. *)
Inductive Control : Type :=
  | Continue (st : State)
  | Break (st : State)
  | Propagate (e : Exn) (st : State).

(** The body of [while True] (lines 110 to 138). A [StopIteration] out of
    [next] breaks the loop; any other exception of the generator is not
    caught by the driver. *)
Definition loop_body (batch_size : Z) (max_rows_to_parse : option Z)
    (st : State) : Control :=
  let st := print (PrintProgress (total_rows_parsed st)) st in
  if rows_count_in_current_batch st <? batch_size then
    match next (csv_lines_iterator st) with
    | (Yield current_record_dict, g) =>
        match validate_craigslist_vehicle_record_dict current_record_dict with
        | inr craiglist_vehicle_record =>
            Continue
              (mkState g (rows_count_in_current_batch st + 1)
                 (total_rows_parsed st + 1) (total_rows_inserted st)
                 (current_batch st ++ [craiglist_vehicle_record])
                 (insert_calls st) (stdout st))
        | inl e =>
            Continue
              (mkState g (rows_count_in_current_batch st)
                 (total_rows_parsed st) (total_rows_inserted st)
                 (current_batch st) (insert_calls st)
                 (stdout st ++ [PrintValidationError e;
                                PrintRecordDict current_record_dict;
                                PrintSeparator]))
        end
    | (StopIteration, g) =>
        Break
          (mkState g (rows_count_in_current_batch st) (total_rows_parsed st)
             (total_rows_inserted st) (current_batch st) (insert_calls st)
             (stdout st))
    | (Raise e, g) =>
        Propagate e
          (mkState g (rows_count_in_current_batch st) (total_rows_parsed st)
             (total_rows_inserted st) (current_batch st) (insert_calls st)
             (stdout st))
    end
  else
    let st := insert_current_batch batch_size st in
    if limit_reached max_rows_to_parse (total_rows_parsed st) then Break st
    else
      Continue
        (mkState (csv_lines_iterator st) 0 (total_rows_parsed st)
           (total_rows_inserted st) [] (insert_calls st) (stdout st)).

(** The statements after the loop (lines 139 to 148): [if current_batch:]
    holds for a non-empty list. *)
Definition after_loop (batch_size : Z) (st : State) : State :=
  let st :=
    match current_batch st with
    | [] => st
    | _ :: _ => insert_current_batch batch_size st
    end in
  let st := print (PrintTotalRowsParsed (total_rows_parsed st)) st in
  print (PrintTotalRowsInserted (total_rows_inserted st)) st.

(** How a call of the driver ends: it returns, or an exception leaves it. *)
Inductive Outcome : Type :=
  | Returned (st : State)
  | Raised (e : Exn) (st : State).

(** [while True] followed by the statements after it. The loop need not
    end; [fuel] bounds the number of turns, and [None] says that the
    bound was reached before the loop ended. *)
Fixpoint while_true (fuel : nat) (batch_size : Z) (max_rows_to_parse : option Z)
    (st : State) : option Outcome :=
  match fuel with
  | O => None
  | S fuel' =>
      match loop_body batch_size max_rows_to_parse st with
      | Continue st' => while_true fuel' batch_size max_rows_to_parse st'
      | Break st' => Some (Returned (after_loop batch_size st'))
      | Propagate e st' => Some (Raised e st')
      end
  end.

Definition initial_state (csv_rows : list (list string)) : State :=
  mkState (create_csv_records_iterator_from_zip_file csv_rows) 0 0 0 [] [] [].

Definition migrate_craigslist_records_csv_from_zip_to_db
    (csv_rows : list (list string)) (batch_size : Z)
    (max_rows_to_parse : option Z) (fuel : nat) : option Outcome :=
  while_true fuel batch_size max_rows_to_parse (initial_state csv_rows).

(** *** Notions used to state the properties of the driver *)

(** The standard output after a turn of the loop that inserts the current
    batch. *)
Definition stdout_inserted (batch_size : Z) (st : State) : list Output :=
  stdout st ++
  [PrintProgress (total_rows_parsed st); PrintStartingInsertion batch_size;
   PrintFinishedInsertion batch_size
     (total_rows_inserted st + rows_count_in_current_batch st)].

(** A line that the reader turns into a row and that the validator accepts
    as the record [r]. *)
Definition valid_line (csv_headers line : list string)
    (r : CraigslistVehicleRecord) : Prop :=
  exists row, normalize_line csv_headers line = inr row
              /\ validate_craigslist_vehicle_record_dict row = inr r.

(** A line on which the reader does not raise. *)
Definition readable_line (csv_headers line : list string) : Prop :=
  exists row, normalize_line csv_headers line = inr row.

Definition read_and_validate (csv_headers line : list string)
    : option CraigslistVehicleRecord :=
  match normalize_line csv_headers line with
  | inr row =>
      match validate_craigslist_vehicle_record_dict row with
      | inr r => Some r
      | inl _ => None
      end
  | inl _ => None
  end.

(** The records of the lines that validate, in the order of the lines. *)
Definition validated_records (csv_headers : list string)
    (lines : list (list string)) : list CraigslistVehicleRecord :=
  omap (read_and_validate csv_headers) lines.

(** The variables of the driver that bear on what is inserted and counted:
    everything but the reader and the standard output. *)
Definition effects (st : State)
    : Z * Z * Z * list CraigslistVehicleRecord * list (list CraigslistVehicleRecord) :=
  (rows_count_in_current_batch st, total_rows_parsed st, total_rows_inserted st,
   current_batch st, insert_calls st).

(** Two states of the driver that differ at most in what was printed, with
    readers that have the same lines to read. *)
Definition same_run_state (st1 st2 : State) : Prop :=
  effects st1 = effects st2
  /\ started (csv_lines_iterator st1) = started (csv_lines_iterator st2).

(** Two calls of the driver that end the same way, with the same counters
    and the same calls of the inserter. *)
Definition same_effects (o1 o2 : Outcome) : Prop :=
  match o1, o2 with
  | Returned st1, Returned st2 => effects st1 = effects st2
  | Raised e1 st1, Raised e2 st2 => e1 = e2 /\ effects st1 = effects st2
  | _, _ => False
  end.

End Driver.

(** Cutting a sequence of records into batches of capacity [n], starting
    from the batch [current]: a record joins the current batch while it
    holds fewer than [n] records, and opens a new batch otherwise. *)
Fixpoint batches {A : Type} (n : nat) (current records : list A) : list (list A) :=
  match records with
  | [] => match current with [] => [] | _ :: _ => [current] end
  | r :: records' =>
      if decide (length current < n)%nat
      then batches n (current ++ [r]) records'
      else current :: batches n [r] records'
  end.

(** A validator for the examples: a row is accepted, as it is, when its
    [price] is a string of digits. *)
Definition example_validate (row : NormalizedRow) : string + NormalizedRow :=
  match row !! "price" with
  | Some (VStr price) =>
      if all_digits price then inr row else inl "price: not an integer"
  | _ => inl "price: no value"
  end.

(** The header row and the records of the examples. *)
Definition example_headers : list string := ["price"; "cylinders"].

Definition example_record (price : string) (cylinders : Value) : NormalizedRow :=
  {[ "price" := VStr price; "cylinders" := cylinders ]}.

End Driver.

Import Driver.

(** ** Notions used to state further properties *)

(** A string made of white space only. *)
Fixpoint all_space (s : string) : bool :=
  match s with
  | EmptyString => true
  | String c s' => is_space c && all_space s'
  end.

(** ** The ways in which a run of the driver ends *)

Module DriverSpec.

(** The state in which an outcome leaves the variables and the effects of
    the driver. *)
Definition outcome_state {CraigslistVehicleRecord PydanticValidationError : Type}
    (o : @Outcome CraigslistVehicleRecord PydanticValidationError) : State :=
  match o with
  | Returned st => st
  | Raised _ st => st
  end.

(** What the block after the loop passes to the inserter: the current
    batch, unless it is empty. *)
Definition pending {A : Type} (batch : list A) : list (list A) :=
  match batch with
  | [] => []
  | _ :: _ => [batch]
  end.

Section DriverSpec.

Context {CraigslistVehicleRecord PydanticValidationError : Type}.
Variable validate :
  NormalizedRow -> PydanticValidationError + CraigslistVehicleRecord.
Variable batch_size : Z.
Variable max_rows_to_parse : option Z.
Variable csv_headers : list string.

(** What holds of the variables of the driver at the head of every turn of
    the loop, when the lines [consumed] have been read and the lines
    [rest] are still to be read. *)
Record loop_invariant (consumed rest : list (list string))
    (st : @State CraigslistVehicleRecord PydanticValidationError) : Prop := {
  inv_reader : started (csv_lines_iterator st) = Suspended csv_headers rest;
  inv_readable : Forall (readable_line csv_headers) consumed;
  inv_count :
    rows_count_in_current_batch st = Z.of_nat (length (current_batch st));
  inv_room : rows_count_in_current_batch st <= batch_size;
  inv_full :
    Forall (fun batch => Z.of_nat (length batch) = batch_size) (insert_calls st);
  inv_records :
    concat (insert_calls st) ++ current_batch st
    = validated_records validate csv_headers consumed;
  inv_inserted :
    total_rows_inserted st = Z.of_nat (length (concat (insert_calls st)));
  inv_parsed :
    total_rows_parsed st
    = Z.of_nat (length (validated_records validate csv_headers consumed));
  inv_limit :
    insert_calls st <> [] ->
    limit_reached max_rows_to_parse (total_rows_inserted st) = false
}.

(** The three ways in which a run on the data lines [lines] ends: the
    reader is exhausted, the limit on the rows stops the loop after a full
    batch, or the reader raises on a line. *)
Inductive ends (lines : list (list string))
    : @Outcome CraigslistVehicleRecord PydanticValidationError -> Prop :=
  | ends_at_end_of_input st full tail :
      Forall (readable_line csv_headers) lines ->
      concat full ++ tail = validated_records validate csv_headers lines ->
      Forall (fun batch => Z.of_nat (length batch) = batch_size) full ->
      Z.of_nat (length tail) < batch_size ->
      insert_calls st = full ++ pending tail ->
      total_rows_parsed st
      = Z.of_nat (length (validated_records validate csv_headers lines)) ->
      total_rows_inserted st = total_rows_parsed st ->
      (full <> [] ->
       limit_reached max_rows_to_parse (Z.of_nat (length (concat full))) = false) ->
      ends lines (Returned st)
  | ends_on_limit st consumed rest full last :
      lines = consumed ++ rest ->
      Forall (readable_line csv_headers) consumed ->
      remaining (csv_lines_iterator st) = rest ->
      concat (full ++ [last]) = validated_records validate csv_headers consumed ->
      Forall (fun batch => Z.of_nat (length batch) = batch_size) (full ++ [last]) ->
      insert_calls st = full ++ [last; last] ->
      total_rows_parsed st
      = Z.of_nat (length (validated_records validate csv_headers consumed)) ->
      total_rows_inserted st = total_rows_parsed st + batch_size ->
      limit_reached max_rows_to_parse (total_rows_parsed st) = true ->
      (full <> [] ->
       limit_reached max_rows_to_parse (total_rows_parsed st - batch_size) = false) ->
      ends lines (Returned st)
  | ends_on_error e st consumed line rest :
      lines = consumed ++ line :: rest ->
      Forall (readable_line csv_headers) consumed ->
      normalize_line csv_headers line = inl e ->
      concat (insert_calls st) ++ current_batch st
      = validated_records validate csv_headers consumed ->
      Forall (fun batch => Z.of_nat (length batch) = batch_size) (insert_calls st) ->
      Z.of_nat (length (current_batch st)) < batch_size ->
      total_rows_parsed st
      = Z.of_nat (length (validated_records validate csv_headers consumed)) ->
      total_rows_inserted st = Z.of_nat (length (concat (insert_calls st))) ->
      ends lines (Raised e st).

(** The state at the head of the loop after [n] turns that each went on to
    a next turn; [None] when the loop ended within these turns. *)
Fixpoint state_after_turns (n : nat)
    (st : @State CraigslistVehicleRecord PydanticValidationError)
    : option State :=
  match n with
  | O => Some st
  | S n' =>
      match loop_body validate batch_size max_rows_to_parse st with
      | Continue st' => state_after_turns n' st'
      | Break _ | Propagate _ _ => None
      end
  end.

End DriverSpec.

End DriverSpec.

Import DriverSpec.

(** * Properties *)

(** ** Field Normalizer *)

Section FieldNormalizerFacts.

Lemma lstrip_not_space (s : string) :
  match lstrip s with
  | EmptyString => True
  | String c _ => is_space c = false
  end.
Proof.
  induction s as [|c s IH]; simpl; [exact I|].
  destruct (is_space c) eqn:Hc; [exact IH|exact Hc].
Qed.

Lemma rstrip_head (c : ascii) (s : string) :
  is_space c = false -> exists t, rstrip (String c s) = String c t.
Proof.
  intros Hc. simpl. destruct (rstrip s) as [|d t].
  - rewrite Hc. eauto.
  - eauto.
Qed.

Lemma rstrip_idempotent (s : string) : rstrip (rstrip s) = rstrip s.
Proof.
  induction s as [|c s IH]; simpl; [reflexivity|].
  destruct (rstrip s) as [|d t] eqn:Hs.
  - destruct (is_space c) eqn:Hc; simpl; [reflexivity|]. by rewrite Hc.
  - change (rstrip (String c (String d t))) with
      (match rstrip (String d t) with
       | EmptyString => if is_space c then EmptyString else String c EmptyString
       | u => String c u
       end).
    by rewrite IH.
Qed.

Lemma strip_idempotent (s : string) : strip (strip s) = strip s.
Proof.
  unfold strip. pose proof (lstrip_not_space s) as Hl.
  destruct (lstrip s) as [|c t] eqn:Hs; [reflexivity|].
  destruct (rstrip_head c t Hl) as [u Hu]. rewrite Hu.
  simpl lstrip. rewrite Hl, <- Hu. apply rstrip_idempotent.
Qed.

(** A stripped string neither starts nor ends with white space: stripping
    removes nothing from a string without white space at its ends. *)
Lemma strip_str_fixed (s t : string) :
  strip_strings_and_replace_empty_strings_with_none s = VStr t ->
  strip_strings_and_replace_empty_strings_with_none t = VStr t.
Proof.
  unfold strip_strings_and_replace_empty_strings_with_none.
  destruct (decide (strip s ≠ "")) as [Hne|]; [|discriminate].
  intros [= <-]. rewrite strip_idempotent.
  destruct (decide (strip s ≠ "")); [reflexivity|contradiction].
Qed.

(** The decimal value read by [int] is positional. *)
Lemma int_acc_app (acc : Z) (ds : string) (c : ascii) :
  int_acc acc (ds +:+ String c EmptyString) = 10 * int_acc acc ds + digit_value c.
Proof.
  revert acc. induction ds as [|d ds IH]; intros acc; simpl; [reflexivity|].
  apply IH.
Qed.

Lemma leading_digits_app (ds rest : string) :
  all_digits ds = true ->
  leading_digits (ds +:+ rest) = ds +:+ leading_digits rest.
Proof.
  induction ds as [|c ds IH]; simpl; [reflexivity|].
  intros [Hc Hds]%andb_prop. rewrite Hc. by rewrite IH.
Qed.

Lemma append_empty_r (s : string) : s +:+ "" = s.
Proof.
  induction s as [|c s IH]; [reflexivity|].
  change (String c (s +:+ "") = String c s). by rewrite IH.
Qed.

Lemma leading_digits_no_digit (s : string) :
  (forall c, String.get 0%nat s = Some c -> is_digit c = false) ->
  leading_digits s = EmptyString.
Proof.
  destruct s as [|c s]; simpl; [reflexivity|].
  intros H. by rewrite (H c eq_refl).
Qed.

(** *** The decimal value of a digit run *)

(** A character that the decimal reader of the standard library accepts
    is a digit, and it is put in front of the digits read so far. *)
Lemma uint_of_char_digit (c : ascii) (o : option Decimal.uint) (u : Decimal.uint) :
  DecimalString.uint_of_char c o = Some u ->
  o = Some (Unsigned.tl u)
  /\ u <> Decimal.Nil
  /\ Z.of_N (Unsigned.hd u) = digit_value c
  /\ is_digit c = true.
Proof.
  destruct o as [u'|]; [|discriminate].
  destruct c as [[] [] [] [] [] [] [] []]; simpl; intros H; try discriminate H;
    injection H as <-; repeat split; discriminate.
Qed.

Lemma is_digit_uint_of_char (c : ascii) (u' : Decimal.uint) :
  is_digit c = true -> exists u, DecimalString.uint_of_char c (Some u') = Some u.
Proof.
  destruct c as [[] [] [] [] [] [] [] []]; intros H; try discriminate H;
    eexists; reflexivity.
Qed.

Lemma of_lu_rev_digit (u : Decimal.uint) :
  u <> Decimal.Nil ->
  (Unsigned.of_lu (Decimal.rev u)
   = Unsigned.of_lu (Decimal.rev (Unsigned.tl u))
     + Unsigned.hd u * 10 ^ Unsigned.usize (Unsigned.tl u)
   /\ Unsigned.usize u = N.succ (Unsigned.usize (Unsigned.tl u)))%N.
Proof.
  intros Hu. destruct u; [done|..]; unfold Decimal.rev; simpl Decimal.revapp;
    rewrite Unsigned.of_lu_revapp;
    cbn [Unsigned.of_lu Unsigned.hd Unsigned.tl Unsigned.usize];
    fold (Decimal.rev u); split; lia.
Qed.

(** [int_acc] reads a digit string as the standard library reads the
    decimal number with these digits. *)
Lemma int_acc_decimal (ds : string) :
  forall (u : Decimal.uint) (acc : Z),
    NilEmpty.uint_of_string ds = Some u ->
    int_acc acc ds = acc * 10 ^ Z.of_N (Unsigned.usize u) + Z.of_uint u.
Proof.
  induction ds as [|c ds IH]; intros u acc Hu; simpl in Hu.
  - injection Hu as <-. change (acc = acc * 10 ^ 0 + 0). lia.
  - apply uint_of_char_digit in Hu as (Hu' & Hnil & Hhd & _).
    simpl int_acc. rewrite (IH _ _ Hu').
    destruct (of_lu_rev_digit u Hnil) as [Hval Hsize].
    unfold Z.of_uint. rewrite !Unsigned.of_uint_alt, Hval, Hsize.
    rewrite N2Z.inj_add, N2Z.inj_mul, N2Z.inj_pow, N2Z.inj_succ, Hhd.
    rewrite Z.pow_succ_r by lia. change (Z.of_N 10) with 10. ring.
Qed.

Lemma all_digits_decimal (ds : string) :
  all_digits ds = true -> exists u, NilEmpty.uint_of_string ds = Some u.
Proof.
  induction ds as [|c ds IH]; simpl; [by exists Decimal.Nil|].
  intros [Hc Hds]%andb_prop. destruct (IH Hds) as [u' ->].
  by apply is_digit_uint_of_char.
Qed.

(** The integer that [int] returns is the number that the digits denote
    in decimal notation. *)
Lemma int_decimal (ds : string) :
  ds <> "" ->
  all_digits ds = true ->
  Z.of_nat (String.length ds) <= int_max_str_digits ->
  exists u, NilZero.uint_of_string ds = Some u /\ int ds = inr (Z.of_uint u).
Proof.
  intros Hne Hds Hlen. destruct (all_digits_decimal ds Hds) as [u Hu].
  exists u. split; [by destruct ds|].
  unfold int. apply Z.leb_le in Hlen. rewrite Hlen.
  by rewrite (int_acc_decimal ds u 0 Hu).
Qed.

Lemma int_too_long (ds : string) :
  int_max_str_digits < Z.of_nat (String.length ds) -> int ds = inl ValueError.
Proof. intros Hlen. unfold int. apply Z.leb_gt in Hlen. by rewrite Hlen. Qed.

Lemma re_match_digit_run (ds rest : string) :
  ds <> "" ->
  all_digits ds = true ->
  (forall c, String.get 0%nat rest = Some c -> is_digit c = false) ->
  re_match_digits (ds +:+ rest) = Some ds.
Proof.
  intros Hne Hds Hrest. unfold re_match_digits.
  rewrite (leading_digits_app ds rest Hds), (leading_digits_no_digit rest Hrest),
    append_empty_r.
  by destruct ds.
Qed.

(** C6, as stated, fails on a run of 4301 digits: [int] raises
    [ValueError] on it, and so does
    [extract_cylinders_int_value_from_cylinders_str] instead of returning
    an integer. *)
Lemma extract_cylinders_long_digit_run_raises :
  let ds := string_of_list_ascii (replicate 4301 "7"%char) in
  all_digits ds = true
  /\ extract_cylinders_int_value_from_cylinders_str (VStr (ds +:+ " cylinders"))
     = inl ValueError.
Proof. split; vm_compute; reflexivity. Qed.

(** C6, amended. [extract_cylinders_int_value_from_cylinders_str] returns
    [None] on [None]; on a string made of a non-empty run [ds] of at most
    4300 digits followed by [" cylinders"] it returns the number that [ds]
    denotes in decimal notation; on a string whose position 0 holds no
    digit (the empty string included) it returns [None]. *)
Theorem extract_cylinders_leading_integer (ds s : string) :
  ds <> "" ->
  all_digits ds = true ->
  Z.of_nat (String.length ds) <= int_max_str_digits ->
  (forall c, String.get 0%nat s = Some c -> is_digit c = false) ->
  extract_cylinders_int_value_from_cylinders_str VNone = inr VNone
  /\ (exists u,
        NilZero.uint_of_string ds = Some u
        /\ extract_cylinders_int_value_from_cylinders_str
             (VStr (ds +:+ " cylinders"))
           = inr (VInt (Z.of_uint u)))
  /\ extract_cylinders_int_value_from_cylinders_str (VStr s) = inr VNone.
Proof.
  intros Hne Hds Hlen Hs. split; [reflexivity|]. split.
  - destruct (int_decimal ds Hne Hds Hlen) as (u & Hu & Hint).
    exists u. split; [exact Hu|].
    unfold extract_cylinders_int_value_from_cylinders_str.
    rewrite (re_match_digit_run ds " cylinders" Hne Hds), Hint; [done|].
    intros c [= <-]. reflexivity.
  - unfold extract_cylinders_int_value_from_cylinders_str, re_match_digits.
    by rewrite (leading_digits_no_digit s Hs).
Qed.

Lemma extract_cylinders_leading_integer_witness :
  extract_cylinders_int_value_from_cylinders_str VNone = inr VNone
  /\ extract_cylinders_int_value_from_cylinders_str (VStr "12 cylinders")
     = inr (VInt 12)
  /\ extract_cylinders_int_value_from_cylinders_str (VStr "other") = inr VNone.
Proof.
  destruct (extract_cylinders_leading_integer "12" "other")
    as (Hnone & (u & Hu & Hdigits) & Hother).
  - discriminate.
  - reflexivity.
  - vm_compute. discriminate.
  - intros c [= <-]. reflexivity.
  - vm_compute in Hu. injection Hu as <-.
    split; [exact Hnone|split; [exact Hdigits|exact Hother]].
Defined.

(** C8, as stated, fails on the empty string: the first application
    returns [None], and the second application, now on [None], raises
    [AttributeError] instead of returning [None] again. *)
Lemma strip_twice_on_empty_string_raises :
  call_strip_strings_and_replace_empty_strings_with_none
    (strip_strings_and_replace_empty_strings_with_none "")
  <> inr (strip_strings_and_replace_empty_strings_with_none "").
Proof. discriminate. Qed.

(** C8, amended. For every string whose normalization is not [None],
    applying [strip_strings_and_replace_empty_strings_with_none] to the
    result returns the result unchanged. *)
Theorem strip_twice_when_not_none (s : string) :
  strip_strings_and_replace_empty_strings_with_none s <> VNone ->
  call_strip_strings_and_replace_empty_strings_with_none
    (strip_strings_and_replace_empty_strings_with_none s)
  = inr (strip_strings_and_replace_empty_strings_with_none s).
Proof.
  intros Hs.
  destruct (strip_strings_and_replace_empty_strings_with_none s) as [|t|n] eqn:E.
  - contradiction.
  - simpl. f_equal. exact (strip_str_fixed s t E).
  - unfold strip_strings_and_replace_empty_strings_with_none in E.
    destruct (decide (strip s <> "")); discriminate.
Qed.

Lemma strip_twice_when_not_none_witness :
  call_strip_strings_and_replace_empty_strings_with_none
    (strip_strings_and_replace_empty_strings_with_none "  4 door ")
  = inr (VStr "4 door").
Proof.
  change (VStr "4 door")
    with (strip_strings_and_replace_empty_strings_with_none "  4 door ").
  apply (strip_twice_when_not_none "  4 door "). discriminate.
Defined.

End FieldNormalizerFacts.

(** ** Streaming Record Reader *)

Section ReaderFacts.

Implicit Types (pairs : list (string * Value)) (d : NormalizedRow).
Implicit Types (csv_headers line : list string).

Local Abbreviation insert_pair := (fun d (kv : string * Value) => <[kv.1 := kv.2]> d).

Lemma dom_fold_insert pairs d :
  dom (fold_left insert_pair pairs d) = dom d ∪ list_to_set pairs.*1.
Proof.
  revert d. induction pairs as [|[k v] pairs IH]; intros d; simpl.
  - set_solver.
  - rewrite IH, dom_insert_L. set_solver.
Qed.

Lemma dom_dict pairs : dom (dict pairs) = list_to_set pairs.*1.
Proof. unfold dict. rewrite dom_fold_insert. set_solver. Qed.

(** The value under a key is the one of the last pair with that key. *)
Lemma lookup_fold_insert_last pairs1 pairs2 d (k : string) (v : Value) :
  k ∉ pairs2.*1 ->
  fold_left insert_pair (pairs1 ++ (k, v) :: pairs2) d !! k = Some v.
Proof.
  intros Hk. rewrite fold_left_app. simpl.
  generalize (fold_left insert_pair pairs1 d). clear pairs1 d.
  assert (forall d, d !! k = Some v -> fold_left insert_pair pairs2 d !! k = Some v) as H.
  { induction pairs2 as [|[k' v'] pairs2 IH]; intros d Hd; simpl; [done|].
    apply IH; [set_solver|]. rewrite lookup_insert_ne; [done|set_solver]. }
  intros d. apply H. apply lookup_insert_eq.
Qed.

Lemma fst_zip_take {A B} (l : list A) (k : list B) :
  (zip l k).*1 = take (length k) l.
Proof.
  revert k. induction l as [|x l IH]; intros [|y k]; simpl; try done.
  by rewrite IH.
Qed.

Lemma zip_take_r {A B} (l : list A) (k : list B) :
  zip l (take (length l) k) = zip l k.
Proof.
  revert k. induction l as [|x l IH]; intros [|y k]; simpl; try done.
  by rewrite IH.
Qed.

Lemma zip_split_at {A B} (l : list A) (k : list B) (i : nat) (x : A) (y : B) :
  l !! i = Some x -> k !! i = Some y ->
  zip l k = zip (take i l) (take i k) ++ (x, y) :: zip (drop (S i) l) (drop (S i) k).
Proof.
  revert k i. induction l as [|x' l IH]; intros [|y' k] [|i]; simpl; try done.
  - by intros [= ->] [= ->].
  - intros Hl Hk. by rewrite <- (IH k i Hl Hk).
Qed.

Lemma dict_zip_lookup_None csv_headers (cells : list Value) (h : string) :
  dict (zip csv_headers cells) !! h = None <-> h ∉ take (length cells) csv_headers.
Proof.
  rewrite <- not_elem_of_dom, dom_dict, fst_zip_take. set_solver.
Qed.

Lemma normalize_line_inr csv_headers line (row : NormalizedRow) :
  normalize_line csv_headers line = inr row ->
  exists cylinders_str cylinders,
    dict (zip csv_headers (map strip_strings_and_replace_empty_strings_with_none line))
      !! "cylinders" = Some cylinders_str
    /\ extract_cylinders_int_value_from_cylinders_str cylinders_str = inr cylinders
    /\ row = <["cylinders" := cylinders]>
               (dict (zip csv_headers
                        (map strip_strings_and_replace_empty_strings_with_none line))).
Proof.
  unfold normalize_line.
  destruct (dict _ !! "cylinders") as [v|] eqn:Hv; [|discriminate].
  destruct (extract_cylinders_int_value_from_cylinders_str v) as [e|c] eqn:Hc;
    [discriminate|].
  intros [= <-]. eauto.
Qed.

(** The reader raises [KeyError] on the lines that leave the
    column [cylinders] without a cell. *)
Lemma normalize_line_KeyError csv_headers line :
  "cylinders" ∉ take (length line) csv_headers ->
  normalize_line csv_headers line = inl (KeyError "cylinders").
Proof.
  intros H. unfold normalize_line.
  assert (dict (zip csv_headers
                  (map strip_strings_and_replace_empty_strings_with_none line))
            !! "cylinders" = None) as ->; [|done].
  apply dict_zip_lookup_None. by rewrite length_map.
Qed.

Lemma lookup_fold_insert_Some pairs d (k : string) (v : Value) :
  fold_left insert_pair pairs d !! k = Some v ->
  d !! k = Some v \/ (k, v) ∈ pairs.
Proof.
  revert d. induction pairs as [|[k' v'] pairs IH]; intros d; simpl; [by left|].
  intros [H|H]%IH; [|right; by right].
  destruct (decide (k' = k)) as [->|Hne].
  - rewrite lookup_insert_eq in H. injection H as ->. right. by left.
  - rewrite lookup_insert_ne in H by done. by left.
Qed.

(** The reader yields a row only for a line that gives the column
    [cylinders] a cell. *)
Lemma normalize_line_yields csv_headers line :
  (exists row, normalize_line csv_headers line = inr row) ->
  "cylinders" ∈ take (length line) csv_headers.
Proof.
  intros [row Hrow].
  destruct (decide ("cylinders" ∈ take (length line) csv_headers)) as [|Hnot];
    [done|].
  by rewrite (normalize_line_KeyError _ _ Hnot) in Hrow.
Qed.

(** C3, as stated, fails: a trailing header without a cell is not mapped
    to [None], it is no key of the yielded row at all. *)
Lemma trailing_header_is_not_mapped_to_None :
  ~ (exists row : NormalizedRow,
       normalize_line ["cylinders"; "model"] ["6 cylinders"] = inr row
       /\ row !! "model" = Some VNone).
Proof. intros [row [[= <-] Hrow]]. vm_compute in Hrow. discriminate. Qed.

(** C3, amended. When the reader yields a row for a line whose cell count
    differs from the header count, the cells are zipped against the headers
    by position: the cells beyond the last header are dropped, the keys of
    the row are exactly the headers that have a cell, so that a trailing
    header without a cell is no key of the row, and every header that has a
    cell is mapped to the normalized cell at the last position at which the
    header occurs ([cylinders] to the integer extracted from it). *)
Theorem mismatched_line_is_zipped_by_position csv_headers line (row : NormalizedRow) :
  normalize_line csv_headers line = inr row ->
  normalize_line csv_headers (take (length csv_headers) line) = inr row
  /\ dom row = list_to_set (take (length line) csv_headers)
  /\ (forall h, h ∉ take (length line) csv_headers -> row !! h = None)
  /\ (forall (i : nat) h cell,
        csv_headers !! i = Some h -> line !! i = Some cell ->
        h ∉ drop (S i) (take (length line) csv_headers) ->
        exists v,
          row !! h = Some v
          /\ (if decide (h = "cylinders")
              then extract_cylinders_int_value_from_cylinders_str
                     (strip_strings_and_replace_empty_strings_with_none cell)
              else inr (strip_strings_and_replace_empty_strings_with_none cell))
             = inr v).
Proof.
  intros Hrow.
  assert (dom row = list_to_set (take (length line) csv_headers)) as Hdom.
  { destruct (normalize_line_inr _ _ _ Hrow) as (v & c & Hv & _ & ->).
    rewrite dom_insert_L, dom_dict, fst_zip_take, length_map.
    apply (elem_of_dom_2 (D := gset string)) in Hv.
    rewrite dom_dict, fst_zip_take, length_map in Hv. set_solver. }
  split; [|split; [exact Hdom|split]].
  - rewrite <- Hrow. unfold normalize_line.
    change (map strip_strings_and_replace_empty_strings_with_none
              (take (length csv_headers) line))
      with (strip_strings_and_replace_empty_strings_with_none
              <$> take (length csv_headers) line).
    rewrite fmap_take, zip_take_r. reflexivity.
  - intros h Hh. apply (not_elem_of_dom (D := gset string)).
    rewrite Hdom. set_solver.
  - intros i h cell Hi Hcell Hlast.
    destruct (normalize_line_inr _ _ _ Hrow) as (v & c & Hv & Hc & ->).
    set (cells := map strip_strings_and_replace_empty_strings_with_none line) in *.
    assert (cells !! i = Some (strip_strings_and_replace_empty_strings_with_none cell))
      as Hcells.
    { unfold cells.
      change (map strip_strings_and_replace_empty_strings_with_none line)
        with (strip_strings_and_replace_empty_strings_with_none <$> line).
      by rewrite list_lookup_fmap, Hcell. }
    assert (dict (zip csv_headers cells) !! h
            = Some (strip_strings_and_replace_empty_strings_with_none cell)) as Hd.
    { unfold dict. rewrite (zip_split_at _ _ i _ _ Hi Hcells).
      apply lookup_fold_insert_last.
      rewrite fst_zip_take, length_drop, take_drop_commute.
      unfold cells. rewrite length_map.
      assert (S i <= length line)%nat by (apply lookup_lt_Some in Hcell; lia).
      by replace (S i + (length line - S i))%nat with (length line) by lia. }
    destruct (decide (h = "cylinders")) as [->|Hne].
    + exists c. rewrite lookup_insert_eq. split; [done|].
      rewrite Hd in Hv. injection Hv as <-. exact Hc.
    + eexists. rewrite lookup_insert_ne by done. split; [exact Hd|done].
Qed.

Lemma mismatched_line_is_zipped_by_position_witness :
  normalize_line ["price"; "cylinders"; "model"] [" 100"; "6 cylinders"]
  = inr {[ "price" := VStr "100"; "cylinders" := VInt 6 ]}
  /\ ({[ "price" := VStr "100"; "cylinders" := VInt 6 ]} : NormalizedRow) !! "model"
     = None.
Proof.
  assert (normalize_line ["price"; "cylinders"; "model"] [" 100"; "6 cylinders"]
          = inr {[ "price" := VStr "100"; "cylinders" := VInt 6 ]}) as H
    by (vm_compute; reflexivity).
  split; [exact H|].
  destruct (mismatched_line_is_zipped_by_position _ _ _ H) as (_ & _ & Hnone & _).
  apply Hnone. simpl.
  intros Hin. repeat (apply elem_of_cons in Hin as [Hin|Hin]; [discriminate|]).
  by apply elem_of_nil in Hin.
Defined.

(** C7. On the header row [a, b, cylinders] and the single data row
    [" x ", "", "6 cylinders"] the reader yields the row that maps [a] to
    ["x"], [b] to [None] and [cylinders] to [6], and it has no further row. *)
Theorem reader_example_row :
  let g := create_csv_records_iterator_from_zip_file
             [["a"; "b"; "cylinders"]; [" x "; ""; "6 cylinders"]] in
  (next g).1 = Yield {[ "a" := VStr "x"; "b" := VNone; "cylinders" := VInt 6 ]}
  /\ (next (next g).2).1 = StopIteration.
Proof. split; vm_compute; reflexivity. Qed.

(** C10, as stated, fails on an archive whose CSV has a header row without
    [cylinders] and no data row: the first [next] stops the iteration, it
    does not raise [KeyError]. *)
Lemma first_next_on_header_only_stops :
  ("cylinders" ∉ ["price"; "model"])
  /\ next (create_csv_records_iterator_from_zip_file [["price"; "model"]])
     = (StopIteration, Closed)
  /\ next (create_csv_records_iterator_from_zip_file [["price"; "model"]])
     <> (Raise (KeyError "cylinders"), Closed).
Proof.
  split; [|split; [reflexivity|discriminate]].
  intros H. repeat (apply elem_of_cons in H as [H|H]; [discriminate|]).
  by apply elem_of_nil in H.
Qed.

(** C10, amended. On a CSV that has a data row, when the header row has no
    column [cylinders], or when the first data row is too short to give the
    column [cylinders] a cell, the first [next] on the reader raises
    [KeyError] and yields no row. *)
Theorem first_next_raises_KeyError csv_headers line (csv_reader : list (list string)) :
  "cylinders" ∉ csv_headers \/ "cylinders" ∉ take (length line) csv_headers ->
  next (create_csv_records_iterator_from_zip_file (csv_headers :: line :: csv_reader))
  = (Raise (KeyError "cylinders"), Closed).
Proof.
  intros H. simpl.
  rewrite normalize_line_KeyError; [reflexivity|].
  destruct H as [H|H]; [|exact H].
  intros Hin. apply H.
  apply elem_of_take in Hin as (j & Hj & _). by eapply list_elem_of_lookup_2.
Qed.

Lemma first_next_raises_KeyError_witness :
  next (create_csv_records_iterator_from_zip_file
          [["price"; "model"]; ["100"; "golf"]; ["200"; "polo"]])
  = (Raise (KeyError "cylinders"), Closed)
  /\ next (create_csv_records_iterator_from_zip_file
             [["price"; "cylinders"]; ["100"]])
     = (Raise (KeyError "cylinders"), Closed).
Proof.
  split.
  - apply first_next_raises_KeyError. left. vm_compute.
    intros H. repeat (apply elem_of_cons in H as [H|H]; [discriminate|]).
    by apply elem_of_nil in H.
  - apply first_next_raises_KeyError. right. simpl.
    intros H. repeat (apply elem_of_cons in H as [H|H]; [discriminate|]).
    by apply elem_of_nil in H.
Defined.

End ReaderFacts.

(** ** Migration Driver *)

Lemma next_started (g : Generator) : next (started g) = next g.
Proof. by destruct g as [[|csv_headers csv_reader]| |]. Qed.

Lemma started_next (g : Generator) : started (next g).2 = (next g).2.
Proof.
  destruct g as [[|h [|line l]]|h [|line l]|]; simpl; try done;
    by destruct (normalize_line h line).
Qed.

Lemma remaining_started (g : Generator) : remaining (started g) = remaining g.
Proof. by destruct g as [[|csv_headers csv_reader]| |]. Qed.

Lemma batches_concat {A} (n : nat) (current records : list A) :
  concat (batches n current records) = current ++ records.
Proof.
  revert current. induction records as [|r records IH]; intros current; simpl.
  - destruct current; simpl; by rewrite ?app_nil_r.
  - destruct (decide (length current < n)%nat); simpl; rewrite IH.
    + by rewrite <- app_assoc.
    + done.
Qed.

Lemma batches_full {A} (n : nat) (current records : list A) :
  (0 < n <= length current)%nat ->
  batches n current records = current :: batches n [] records.
Proof.
  intros Hn. destruct records as [|r records]; simpl.
  - destruct current; [simpl in Hn; lia|done].
  - destruct (decide (length current < n)%nat); [lia|].
    destruct (decide (0 < n)%nat); [done|lia].
Qed.

(** Names the state that a turn of the loop hands to the next one. *)
Ltac name_next_state H st :=
  match type of H with
  | _ = Continue ?s => set (st := s) in *
  | _ = Break ?s => set (st := s) in *
  end.

Section DriverFacts.

Context {CraigslistVehicleRecord PydanticValidationError : Type}.
Variable validate :
  NormalizedRow -> PydanticValidationError + CraigslistVehicleRecord.
Variable batch_size : Z.
Variable max_rows_to_parse : option Z.

Local Abbreviation St := (@State CraigslistVehicleRecord PydanticValidationError).
Local Abbreviation body := (loop_body validate batch_size max_rows_to_parse).
Local Abbreviation while fuel := (while_true validate fuel batch_size max_rows_to_parse).

Implicit Types (st : St) (csv_headers line : list string).
Implicit Types (lines : list (list string)) (fuel : nat).

(** More fuel does not change the outcome of a loop that ended. *)
Lemma while_true_mono fuel fuel' st o :
  while fuel st = Some o -> (fuel <= fuel')%nat -> while fuel' st = Some o.
Proof.
  revert fuel' st. induction fuel as [|fuel IH]; intros fuel' st; [discriminate|].
  intros H Hle. destruct fuel' as [|fuel']; [lia|]. simpl in *.
  destruct (body st); [|done|done]. apply IH; [done|lia].
Qed.

Lemma while_true_S fuel st :
  while (S fuel) st
  = match body st with
    | Continue st' => while fuel st'
    | Break st' => Some (Returned (after_loop batch_size st'))
    | Propagate e st' => Some (Raised e st')
    end.
Proof. reflexivity. Qed.

(** *** The turns of the loop *)

Lemma body_valid st row g r :
  rows_count_in_current_batch st < batch_size ->
  next (csv_lines_iterator st) = (Yield row, g) ->
  validate row = inr r ->
  body st
  = Continue
      (mkState g (rows_count_in_current_batch st + 1) (total_rows_parsed st + 1)
         (total_rows_inserted st) (current_batch st ++ [r]) (insert_calls st)
         (stdout st ++ [PrintProgress (total_rows_parsed st)])).
Proof.
  intros Hlt Hnext Hr. unfold loop_body. simpl.
  apply Z.ltb_lt in Hlt. by rewrite Hlt, Hnext, Hr.
Qed.

Lemma body_invalid st row g e :
  rows_count_in_current_batch st < batch_size ->
  next (csv_lines_iterator st) = (Yield row, g) ->
  validate row = inl e ->
  body st
  = Continue
      (mkState g (rows_count_in_current_batch st) (total_rows_parsed st)
         (total_rows_inserted st) (current_batch st) (insert_calls st)
         (stdout st ++ [PrintProgress (total_rows_parsed st);
                        PrintValidationError e; PrintRecordDict row;
                        PrintSeparator])).
Proof.
  intros Hlt Hnext He. unfold loop_body. simpl.
  apply Z.ltb_lt in Hlt. rewrite Hlt, Hnext, He. by rewrite <- app_assoc.
Qed.

Lemma body_stop st g :
  rows_count_in_current_batch st < batch_size ->
  next (csv_lines_iterator st) = (StopIteration, g) ->
  body st
  = Break
      (mkState g (rows_count_in_current_batch st) (total_rows_parsed st)
         (total_rows_inserted st) (current_batch st) (insert_calls st)
         (stdout st ++ [PrintProgress (total_rows_parsed st)])).
Proof.
  intros Hlt Hnext. unfold loop_body. simpl.
  apply Z.ltb_lt in Hlt. by rewrite Hlt, Hnext.
Qed.

Lemma body_raise st g e :
  rows_count_in_current_batch st < batch_size ->
  next (csv_lines_iterator st) = (Raise e, g) ->
  body st
  = Propagate e
      (mkState g (rows_count_in_current_batch st) (total_rows_parsed st)
         (total_rows_inserted st) (current_batch st) (insert_calls st)
         (stdout st ++ [PrintProgress (total_rows_parsed st)])).
Proof.
  intros Hlt Hnext. unfold loop_body. simpl.
  apply Z.ltb_lt in Hlt. by rewrite Hlt, Hnext.
Qed.

Lemma body_insert_continue st :
  batch_size <= rows_count_in_current_batch st ->
  limit_reached max_rows_to_parse (total_rows_parsed st) = false ->
  body st
  = Continue
      (mkState (csv_lines_iterator st) 0 (total_rows_parsed st)
         (total_rows_inserted st + rows_count_in_current_batch st) []
         (insert_calls st ++ [current_batch st]) (stdout_inserted batch_size st)).
Proof.
  intros Hge Hlim.
  unfold loop_body, insert_current_batch,
    insert_batch_of_craigslist_vehicle_records, print. simpl.
  assert ((rows_count_in_current_batch st <? batch_size) = false) as ->
    by (apply Z.ltb_ge; lia).
  unfold stdout_inserted. rewrite Hlim. simpl. by rewrite <- ?app_assoc.
Qed.

Lemma body_insert_break st :
  batch_size <= rows_count_in_current_batch st ->
  limit_reached max_rows_to_parse (total_rows_parsed st) = true ->
  body st
  = Break
      (mkState (csv_lines_iterator st) (rows_count_in_current_batch st)
         (total_rows_parsed st)
         (total_rows_inserted st + rows_count_in_current_batch st)
         (current_batch st) (insert_calls st ++ [current_batch st])
         (stdout_inserted batch_size st)).
Proof.
  intros Hge Hlim.
  unfold loop_body, insert_current_batch,
    insert_batch_of_craigslist_vehicle_records, print. simpl.
  assert ((rows_count_in_current_batch st <? batch_size) = false) as ->
    by (apply Z.ltb_ge; lia).
  unfold stdout_inserted. rewrite Hlim. simpl. by rewrite <- ?app_assoc.
Qed.

(** *** After the loop *)

Lemma after_loop_effects st :
  effects (after_loop batch_size st)
  = match current_batch st with
    | [] => effects st
    | _ :: _ =>
        (rows_count_in_current_batch st, total_rows_parsed st,
         total_rows_inserted st + rows_count_in_current_batch st,
         current_batch st, insert_calls st ++ [current_batch st])
    end.
Proof.
  unfold after_loop, effects.
  destruct (current_batch st) eqn:E; simpl; rewrite ?E; reflexivity.
Qed.

Lemma effects_inv st c p i b (calls : list (list CraigslistVehicleRecord)) :
  effects st = (c, p, i, b, calls) ->
  rows_count_in_current_batch st = c /\ total_rows_parsed st = p
  /\ total_rows_inserted st = i /\ current_batch st = b /\ insert_calls st = calls.
Proof. unfold effects. by intros [= -> -> -> -> ->]. Qed.

Lemma next_of_started st csv_headers lines :
  started (csv_lines_iterator st) = Suspended csv_headers lines ->
  next (csv_lines_iterator st) = resume csv_headers lines.
Proof. intros H. by rewrite <- next_started, H. Qed.

Lemma validated_records_valid csv_headers line lines row r :
  normalize_line csv_headers line = inr row -> validate row = inr r ->
  validated_records validate csv_headers (line :: lines)
  = r :: validated_records validate csv_headers lines.
Proof.
  intros Hrow Hr. unfold validated_records, read_and_validate. simpl.
  by rewrite Hrow, Hr.
Qed.

Lemma validated_records_invalid csv_headers line lines row e :
  normalize_line csv_headers line = inr row -> validate row = inl e ->
  validated_records validate csv_headers (line :: lines)
  = validated_records validate csv_headers lines.
Proof.
  intros Hrow He. unfold validated_records, read_and_validate. simpl.
  by rewrite Hrow, He.
Qed.

(** *** Runs without a limit on the rows *)

(** From any state whose counter agrees with its batch, with a positive
    capacity, no limit and lines that the reader accepts, the loop ends
    and the driver returns; the calls of the inserter are those made
    before, followed by the batches cut from the current batch and the
    records still to come. *)
Lemma run_unbounded lines :
  forall st csv_headers,
    0 < batch_size ->
    (forall parsed, limit_reached max_rows_to_parse parsed = false) ->
    started (csv_lines_iterator st) = Suspended csv_headers lines ->
    Forall (readable_line csv_headers) lines ->
    rows_count_in_current_batch st = Z.of_nat (length (current_batch st)) ->
    exists fuel st',
      (fuel <= 2 * length lines + 2)%nat
      /\ while fuel st = Some (Returned st')
      /\ insert_calls st'
         = insert_calls st
           ++ batches (Z.to_nat batch_size) (current_batch st)
                (validated_records validate csv_headers lines)
      /\ total_rows_parsed st'
         = total_rows_parsed st
           + Z.of_nat (length (validated_records validate csv_headers lines))
      /\ total_rows_inserted st'
         = total_rows_inserted st + Z.of_nat (length (current_batch st))
           + Z.of_nat (length (validated_records validate csv_headers lines)).
Proof.
  induction lines as [|line lines IH]; intros st csv_headers Hpos Hlim Hit Hread Hcount.
  - (* no line left *)
    pose proof (next_of_started _ _ _ Hit) as Hnext. simpl in Hnext.
    destruct (Z_lt_le_dec (rows_count_in_current_batch st) batch_size) as [Hlt|Hge].
    + exists 1%nat. eexists. split; [simpl; lia|]. split.
      { simpl. by rewrite (body_stop st _ Hlt Hnext). }
      match goal with |- context [after_loop _ ?s] =>
        pose proof (after_loop_effects s) as Heff end.
      unfold effects in Heff. simpl in *.
      destruct (current_batch st) as [|r b] eqn:Hb; simplify_eq; simpl in *.
      * rewrite app_nil_r. repeat split; lia.
      * repeat split; lia.
    + exists 2%nat. eexists. split; [simpl; lia|]. split.
      { simpl. rewrite (body_insert_continue st Hge (Hlim _)).
        rewrite body_stop with (g := Closed); [reflexivity|simpl; lia|exact Hnext]. }
      match goal with |- context [after_loop _ ?s] =>
        pose proof (after_loop_effects s) as Heff end.
      unfold effects in Heff. simpl in *. simplify_eq.
      destruct (current_batch st) as [|r b] eqn:Hb; simpl in *; [lia|].
      repeat split; lia.
  - (* a line left *)
    apply Forall_cons in Hread as [[row Hrow] Hread].
    assert (forall st0,
      started (csv_lines_iterator st0) = Suspended csv_headers (line :: lines) ->
      rows_count_in_current_batch st0 = Z.of_nat (length (current_batch st0)) ->
      rows_count_in_current_batch st0 < batch_size ->
      exists fuel st',
        (fuel <= 2 * length lines + 3)%nat
        /\ while fuel st0 = Some (Returned st')
        /\ insert_calls st'
           = insert_calls st0
             ++ batches (Z.to_nat batch_size) (current_batch st0)
                  (validated_records validate csv_headers (line :: lines))
        /\ total_rows_parsed st'
           = total_rows_parsed st0
             + Z.of_nat (length (validated_records validate csv_headers (line :: lines)))
        /\ total_rows_inserted st'
           = total_rows_inserted st0 + Z.of_nat (length (current_batch st0))
             + Z.of_nat (length (validated_records validate csv_headers (line :: lines))))
      as Hstep.
    { intros st0 Hit0 Hcount0 Hlt.
      pose proof (next_of_started _ _ _ Hit0) as Hnext. simpl in Hnext.
      rewrite Hrow in Hnext.
      destruct (validate row) as [e|r] eqn:Hval.
      - rewrite (validated_records_invalid _ _ _ _ _ Hrow Hval).
        pose proof (body_invalid st0 _ _ _ Hlt Hnext Hval) as Hbody.
        name_next_state Hbody st1.
        destruct (IH st1 csv_headers Hpos Hlim eq_refl Hread Hcount0)
          as (fuel & st' & Hfuel & Hrun & Hres).
        exists (S fuel), st'. split; [lia|]. split; [|exact Hres].
        simpl. by rewrite Hbody.
      - rewrite (validated_records_valid _ _ _ _ _ Hrow Hval).
        pose proof (body_valid st0 _ _ _ Hlt Hnext Hval) as Hbody.
        name_next_state Hbody st1.
        destruct (IH st1 csv_headers Hpos Hlim eq_refl Hread)
          as (fuel & st' & Hfuel & Hrun & Hcalls & Hparsed & Hinserted).
        { subst st1. simpl. rewrite length_app. simpl. lia. }
        exists (S fuel), st'. split; [lia|]. split; [simpl; by rewrite Hbody|].
        subst st1. simpl in *.
        destruct (decide (length (current_batch st0) < Z.to_nat batch_size)%nat);
          [|lia].
        rewrite length_app in Hinserted. simpl in Hinserted.
        repeat split; [exact Hcalls|lia|lia]. }
    destruct (Z_lt_le_dec (rows_count_in_current_batch st) batch_size) as [Hlt|Hge].
    + destruct (Hstep st Hit Hcount Hlt) as (fuel & st' & Hfuel & Hres).
      exists fuel, st'. split; [simpl; lia|exact Hres].
    + pose proof (body_insert_continue st Hge (Hlim _)) as Hbody.
      name_next_state Hbody st1.
      destruct (Hstep st1 Hit eq_refl)
        as (fuel & st' & Hfuel & Hrun & Hcalls & Hparsed & Hinserted);
        [subst st1; simpl; lia|].
      exists (S fuel), st'. split; [simpl; lia|]. split; [simpl; by rewrite Hbody|].
      subst st1. simpl in *. rewrite (batches_full _ (current_batch st)) by lia.
      rewrite <- app_assoc in Hcalls. repeat split; [exact Hcalls|lia|lia].
Qed.

(** *** What is printed does not steer the driver *)

Lemma effects_eq st1 st2 :
  effects st1 = effects st2 ->
  rows_count_in_current_batch st1 = rows_count_in_current_batch st2
  /\ total_rows_parsed st1 = total_rows_parsed st2
  /\ total_rows_inserted st1 = total_rows_inserted st2
  /\ current_batch st1 = current_batch st2
  /\ insert_calls st1 = insert_calls st2.
Proof. intros H. symmetry in H. by apply effects_inv in H as (-> & -> & -> & -> & ->). Qed.

Lemma same_run_state_body st1 st2 :
  same_run_state st1 st2 ->
  match body st1, body st2 with
  | Continue st1', Continue st2' => same_run_state st1' st2'
  | Break st1', Break st2' => same_run_state st1' st2'
  | Propagate e1 st1', Propagate e2 st2' => e1 = e2 /\ same_run_state st1' st2'
  | _, _ => False
  end.
Proof.
  intros [Heff Hit].
  apply effects_eq in Heff as (Hc & Hp & Hi & Hb & Hcalls).
  assert (next (csv_lines_iterator st1) = next (csv_lines_iterator st2)) as Hnext
    by (by rewrite <- next_started, Hit, next_started).
  pose proof (started_next (csv_lines_iterator st2)) as Hst.
  unfold loop_body, insert_current_batch,
    insert_batch_of_craigslist_vehicle_records, print; simpl.
  rewrite Hc, Hp, Hi, Hb, Hcalls, Hnext.
  destruct (rows_count_in_current_batch st2 <? batch_size).
  - destruct (next (csv_lines_iterator st2)) as [[row| |e] g]; simpl in Hst.
    + destruct (validate row); by split; [|simpl; rewrite Hst].
    + by split; [|simpl; rewrite Hst].
    + by split; [|split; [|simpl; rewrite Hst]].
  - destruct (limit_reached max_rows_to_parse (total_rows_parsed st2)); by split.
Qed.

Lemma same_run_state_after_loop st1 st2 :
  same_run_state st1 st2 ->
  effects (after_loop batch_size st1) = effects (after_loop batch_size st2).
Proof.
  intros [Heff Hit]. rewrite !after_loop_effects.
  apply effects_eq in Heff as (Hc & Hp & Hi & Hb & Hcalls).
  unfold effects. by rewrite Hc, Hp, Hi, Hb, Hcalls.
Qed.

Lemma same_run_state_while fuel :
  forall st1 st2,
    same_run_state st1 st2 ->
    match while fuel st1, while fuel st2 with
    | Some o1, Some o2 => same_effects o1 o2
    | None, None => True
    | _, _ => False
    end.
Proof.
  induction fuel as [|fuel IH]; intros st1 st2 Hsame; simpl; [done|].
  pose proof (same_run_state_body st1 st2 Hsame) as Hbody.
  destruct (body st1) as [st1'|st1'|e1 st1'], (body st2) as [st2'|st2'|e2 st2'];
    try done.
  - by apply IH.
  - simpl. by apply same_run_state_after_loop.
  - simpl. destruct Hbody as [-> [Heff _]]. by split.
Qed.

(** *** A line that does not validate leaves no trace but on the output *)

Lemma skip_invalid_line csv_headers line row e fuel :
  normalize_line csv_headers line = inr row ->
  validate row = inl e ->
  forall lines1 lines2 st1 st2 o1,
    effects st1 = effects st2 ->
    started (csv_lines_iterator st1) = Suspended csv_headers (lines1 ++ lines2) ->
    started (csv_lines_iterator st2)
    = Suspended csv_headers (lines1 ++ line :: lines2) ->
    while fuel st1 = Some o1 ->
    exists o2, while (S fuel) st2 = Some o2 /\ same_effects o1 o2.
Proof.
  intros Hrow He.
  induction fuel as [|fuel IH]; intros lines1 lines2 st1 st2 o1 Heff Hit1 Hit2 Hrun;
    [discriminate|].
  pose proof (effects_eq _ _ Heff) as (Hc & Hp & Hi & Hb & Hcalls).
  rewrite while_true_S in Hrun. rewrite while_true_S.
  destruct (Z_lt_le_dec (rows_count_in_current_batch st2) batch_size) as [Hlt|Hge].
  - assert (rows_count_in_current_batch st1 < batch_size) as Hlt1 by lia.
    pose proof (next_of_started _ _ _ Hit1) as Hnext1.
    pose proof (next_of_started _ _ _ Hit2) as Hnext2.
    destruct lines1 as [|line1 lines1]; simpl in Hit1, Hit2, Hnext1, Hnext2.
    + (* the line is read now, by the second run only *)
      rewrite Hrow in Hnext2.
      rewrite (body_invalid st2 _ _ _ Hlt Hnext2 He).
      rewrite <- while_true_S in Hrun.
      match goal with |- context [while _ ?s] => set (st2' := s) end.
      assert (same_run_state st1 st2') as Hsame by (split; [exact Heff|by rewrite Hit1]).
      pose proof (same_run_state_while (S fuel) st1 st2' Hsame) as Hwhile.
      rewrite Hrun in Hwhile.
      destruct (while (S fuel) st2') as [o2|]; [|done]. by exists o2.
    + (* both runs read the same line *)
      destruct (normalize_line csv_headers line1) as [ex|row1] eqn:Hrow1.
      * rewrite (body_raise st1 _ _ Hlt1 Hnext1) in Hrun.
        rewrite (body_raise st2 _ _ Hlt Hnext2).
        injection Hrun as <-. eexists. split; [reflexivity|].
        split; [done|]. unfold effects. simpl. by rewrite Hc, Hp, Hi, Hb, Hcalls.
      * destruct (validate row1) as [e1|r1] eqn:Hval1.
        -- rewrite (body_invalid st1 _ _ _ Hlt1 Hnext1 Hval1) in Hrun.
           rewrite (body_invalid st2 _ _ _ Hlt Hnext2 Hval1).
           eapply IH; [| | |exact Hrun]; [|reflexivity|reflexivity].
           unfold effects. simpl. by rewrite Hc, Hp, Hi, Hb, Hcalls.
        -- rewrite (body_valid st1 _ _ _ Hlt1 Hnext1 Hval1) in Hrun.
           rewrite (body_valid st2 _ _ _ Hlt Hnext2 Hval1).
           eapply IH; [| | |exact Hrun]; [|reflexivity|reflexivity].
           unfold effects. simpl. by rewrite Hc, Hp, Hi, Hb, Hcalls.
  - (* both runs insert their batch *)
    assert (batch_size <= rows_count_in_current_batch st1) as Hge1 by lia.
    destruct (limit_reached max_rows_to_parse (total_rows_parsed st2)) eqn:Hlim.
    + rewrite (body_insert_break st1 Hge1) in Hrun by (by rewrite Hp).
      rewrite (body_insert_break st2 Hge Hlim).
      injection Hrun as <-. eexists. split; [reflexivity|].
      simpl. rewrite !after_loop_effects. simpl.
      rewrite Hc, Hp, Hi, Hb, Hcalls. by destruct (current_batch st2).
    + rewrite (body_insert_continue st1 Hge1) in Hrun by (by rewrite Hp).
      rewrite (body_insert_continue st2 Hge Hlim).
      eapply IH; [| | |exact Hrun]; [|exact Hit1|exact Hit2].
      unfold effects. simpl. by rewrite Hc, Hp, Hi, Hb, Hcalls.
Qed.

(** *** With a positive capacity the loop ends *)

Lemma while_true_terminates :
  0 < batch_size ->
  forall st, exists fuel o,
    (fuel <= 2 * length (remaining (csv_lines_iterator st)) + 2)%nat
    /\ while fuel st = Some o.
Proof.
  intros Hpos st.
  remember (length (remaining (csv_lines_iterator st))) as n eqn:Hn.
  revert st Hn. induction (lt_wf n) as [n _ IH]. intros st ->.
  assert (forall st0,
    remaining (csv_lines_iterator st0) = remaining (csv_lines_iterator st) ->
    rows_count_in_current_batch st0 < batch_size ->
    exists fuel o,
      (fuel <= 2 * length (remaining (csv_lines_iterator st)) + 1)%nat
      /\ while fuel st0 = Some o) as Hread.
  { intros st0 Hrem Hlt.
    destruct (next (csv_lines_iterator st0)) as [[row| |ex] g] eqn:Hnext.
    - assert (length (remaining g) < length (remaining (csv_lines_iterator st)))%nat
        as Hless.
      { rewrite <- Hrem. clear -Hnext.
        destruct (csv_lines_iterator st0) as [[|h [|line l]]|h [|line l]|];
          simpl in *; try discriminate;
          destruct (normalize_line h line); simplify_eq; simpl; lia. }
      destruct (validate row) as [e|r] eqn:Hval.
      + pose proof (body_invalid st0 _ _ _ Hlt Hnext Hval) as Hbody.
        name_next_state Hbody st1.
        destruct (IH _ Hless st1 eq_refl) as (fuel & o & Hfuel & Hrun).
        exists (S fuel), o. split; [simpl in Hfuel; lia|].
        by rewrite while_true_S, Hbody.
      + pose proof (body_valid st0 _ _ _ Hlt Hnext Hval) as Hbody.
        name_next_state Hbody st1.
        destruct (IH _ Hless st1 eq_refl) as (fuel & o & Hfuel & Hrun).
        exists (S fuel), o. split; [simpl in Hfuel; lia|].
        by rewrite while_true_S, Hbody.
    - exists 1%nat. eexists. split; [lia|].
      by rewrite while_true_S, (body_stop st0 _ Hlt Hnext).
    - exists 1%nat. eexists. split; [lia|].
      by rewrite while_true_S, (body_raise st0 _ _ Hlt Hnext). }
  destruct (Z_lt_le_dec (rows_count_in_current_batch st) batch_size) as [Hlt|Hge].
  - destruct (Hread st eq_refl Hlt) as (fuel & o & Hfuel & Hrun).
    exists fuel, o. split; [lia|exact Hrun].
  - destruct (limit_reached max_rows_to_parse (total_rows_parsed st)) eqn:Hlim.
    + exists 1%nat. eexists. split; [lia|].
      by rewrite while_true_S, (body_insert_break st Hge Hlim).
    + pose proof (body_insert_continue st Hge Hlim) as Hbody.
      name_next_state Hbody st1.
      destruct (Hread st1 eq_refl) as (fuel & o & Hfuel & Hrun); [simpl; lia|].
      exists (S fuel), o. split; [lia|]. by rewrite while_true_S, Hbody.
Qed.

(** *** With a capacity that is not positive the loop does not end *)

Lemma while_true_no_capacity fuel :
  forall st,
    batch_size <= 0 ->
    (forall parsed, limit_reached max_rows_to_parse parsed = false) ->
    rows_count_in_current_batch st = 0 ->
    while fuel st = None.
Proof.
  induction fuel as [|fuel IH]; intros st Hcap Hlim Hcount; [reflexivity|].
  rewrite while_true_S, (body_insert_continue st) by (rewrite ?Hcount; auto).
  by apply IH.
Qed.

(** *** Reading lines that validate while the batch has room *)

Lemma valid_lines_validated csv_headers lines (recs : list CraigslistVehicleRecord) :
  Forall2 (valid_line validate csv_headers) lines recs ->
  Forall (readable_line csv_headers) lines
  /\ validated_records validate csv_headers lines = recs.
Proof.
  induction 1 as [|line r lines recs (row & Hrow & Hr) _ [IH1 IH2]].
  - by split.
  - split; [constructor; [by exists row|done]|].
    by rewrite (validated_records_valid _ _ _ _ _ Hrow Hr), IH2.
Qed.

Lemma read_valid_lines lines :
  forall (recs : list CraigslistVehicleRecord) st csv_headers rest,
    Forall2 (valid_line validate csv_headers) lines recs ->
    started (csv_lines_iterator st) = Suspended csv_headers (lines ++ rest) ->
    rows_count_in_current_batch st + Z.of_nat (length lines) <= batch_size ->
    exists st',
      (forall fuel, while (length lines + fuel) st = while fuel st')
      /\ started (csv_lines_iterator st') = Suspended csv_headers rest
      /\ effects st'
         = (rows_count_in_current_batch st + Z.of_nat (length lines),
            total_rows_parsed st + Z.of_nat (length lines),
            total_rows_inserted st, current_batch st ++ recs, insert_calls st).
Proof.
  induction lines as [|line lines IH]; intros recs st csv_headers rest Hvalid Hit Hroom.
  - apply Forall2_nil_inv_l in Hvalid as ->. exists st. split; [done|]. split; [done|].
    unfold effects. simpl. by rewrite app_nil_r, !Z.add_0_r.
  - apply Forall2_cons_inv_l in Hvalid as (r & recs' & (row & Hrow & Hr) & Hvalid & ->).
    pose proof (next_of_started _ _ _ Hit) as Hnext. simpl in Hnext.
    rewrite Hrow in Hnext.
    simpl length in Hroom. rewrite Nat2Z.inj_succ in Hroom.
    assert (rows_count_in_current_batch st < batch_size) as Hlt by lia.
    pose proof (body_valid st _ _ _ Hlt Hnext Hr) as Hbody.
    name_next_state Hbody st1.
    destruct (IH recs' st1 csv_headers rest Hvalid eq_refl) as (st' & Hrun & Hit' & Heff).
    { subst st1. simpl. lia. }
    exists st'. split; [|split; [exact Hit'|]].
    + intros fuel. simpl. by rewrite Hbody.
    + rewrite Heff. subst st1. unfold effects. simpl length.
      rewrite Nat2Z.inj_succ. simpl. rewrite <- app_assoc. simpl.
      assert (forall a b : Z, a + 1 + b = a + Z.succ b) as E by (intros; lia).
      by rewrite !E.
Qed.

Lemma while_true_enough fuel0 bound st o :
  while fuel0 st = Some o -> (fuel0 <= bound)%nat ->
  forall fuel, (bound <= fuel)%nat -> while fuel st = Some o.
Proof. intros H Hle fuel Hfuel. apply (while_true_mono fuel0); [done|lia]. Qed.

End DriverFacts.

Section DriverClaims.

Context {CraigslistVehicleRecord PydanticValidationError : Type}.
Variable validate :
  NormalizedRow -> PydanticValidationError + CraigslistVehicleRecord.

Local Abbreviation migrate :=
  (migrate_craigslist_records_csv_from_zip_to_db validate).

Implicit Types (csv_headers line : list string) (lines : list (list string)).
Implicit Types (r : CraigslistVehicleRecord) (recs : list CraigslistVehicleRecord).

Lemma run_unbounded_from_start csv_headers lines (batch_size : Z) :
  0 < batch_size ->
  Forall (readable_line csv_headers) lines ->
  exists st,
    (forall fuel, (2 * length lines + 2 <= fuel)%nat ->
       migrate (csv_headers :: lines) batch_size None fuel = Some (Returned st))
    /\ insert_calls st
       = batches (Z.to_nat batch_size) [] (validated_records validate csv_headers lines)
    /\ total_rows_parsed st
       = Z.of_nat (length (validated_records validate csv_headers lines))
    /\ total_rows_inserted st
       = Z.of_nat (length (validated_records validate csv_headers lines)).
Proof.
  intros Hpos Hread.
  destruct (run_unbounded validate batch_size None lines
              (initial_state (csv_headers :: lines)) csv_headers Hpos
              (fun _ => eq_refl) eq_refl Hread eq_refl)
    as (fuel0 & st & Hfuel & Hrun & Hcalls & Hparsed & Hinserted).
  simpl in *. exists st. split; [|split; [exact Hcalls|split; lia]].
  intros fuel Hle. exact (while_true_enough _ _ _ _ _ _ _ Hrun Hfuel fuel Hle).
Qed.

(** C9, as stated, fails on two kinds of runs. A line without a cell for
    [cylinders] (here an empty line) makes the reader raise [KeyError],
    which the driver does not catch: the record validated before it is in
    no batch passed to the inserter. And with a capacity of 0 the loop
    inserts empty batches for ever and never reads a line. *)
Lemma unbounded_run_loses_valid_records :
  match
    migrate_craigslist_records_csv_from_zip_to_db example_validate
      [example_headers; ["100"; "4 cylinders"]; []] 10 None 5
  with
  | Some (Raised e st) =>
      e = KeyError "cylinders"
      /\ validated_records example_validate example_headers
           [["100"; "4 cylinders"]; []]
         = [example_record "100" (VInt 4)]
      /\ concat (insert_calls st) = []
  | _ => False
  end
  /\ forall fuel,
       migrate_craigslist_records_csv_from_zip_to_db example_validate
         [example_headers; ["100"; "4 cylinders"]] 0 None fuel
       = None.
Proof.
  split.
  - vm_compute. by repeat split.
  - intros fuel. by apply while_true_no_capacity.
Qed.

(** C9, amended. Without a limit on the rows, with a batch capacity of at
    least 1 and lines on none of which the reader raises, the driver
    returns, and the batches it passed to the inserter, put end to end,
    are the records of the lines that validate, each once and in the order
    of the lines. *)
Theorem unbounded_run_inserts_valid_records_once_in_order csv_headers lines
    (batch_size : Z) :
  0 < batch_size ->
  Forall (readable_line csv_headers) lines ->
  exists st,
    (forall fuel, (2 * length lines + 2 <= fuel)%nat ->
       migrate (csv_headers :: lines) batch_size None fuel = Some (Returned st))
    /\ concat (insert_calls st) = validated_records validate csv_headers lines
    /\ insert_calls st
       = batches (Z.to_nat batch_size) [] (validated_records validate csv_headers lines)
    /\ total_rows_inserted st
       = Z.of_nat (length (validated_records validate csv_headers lines)).
Proof.
  intros Hpos Hread.
  destruct (run_unbounded_from_start csv_headers lines batch_size Hpos Hread)
    as (st & Hrun & Hcalls & _ & Hinserted).
  exists st. split; [exact Hrun|split; [|split; [exact Hcalls|exact Hinserted]]].
  by rewrite Hcalls, batches_concat.
Qed.

(** C4. On five lines that validate, with batch capacity 2 and no limit on
    the rows, the driver returns after exactly three calls of the inserter,
    on batches of sizes 2, 2 and 1 in that order, and its count of inserted
    rows is 5. *)
Theorem five_valid_rows_capacity_two csv_headers lines r1 r2 r3 r4 r5 :
  Forall2 (valid_line validate csv_headers) lines [r1; r2; r3; r4; r5] ->
  exists st,
    (forall fuel, (12 <= fuel)%nat ->
       migrate (csv_headers :: lines) 2 None fuel = Some (Returned st))
    /\ insert_calls st = [[r1; r2]; [r3; r4]; [r5]]
    /\ length <$> insert_calls st = [2; 2; 1]%nat
    /\ total_rows_inserted st = 5.
Proof.
  intros Hvalid.
  pose proof (Forall2_length _ _ _ Hvalid) as Hlen. simpl in Hlen.
  destruct (valid_lines_validated validate _ _ _ Hvalid) as [Hread Hrecs].
  destruct (run_unbounded_from_start csv_headers lines 2 eq_refl Hread)
    as (st & Hrun & Hcalls & _ & Hinserted).
  rewrite Hrecs in Hcalls, Hinserted. simpl in Hcalls, Hinserted.
  exists st. split; [|split; [exact Hcalls|split; [by rewrite Hcalls|exact Hinserted]]].
  intros fuel Hle. apply Hrun. lia.
Qed.

(** C2. The code does not do what C2 says. When the limit on the rows is
    reached the loop is left before the batch is cleared, and the block
    after the loop passes the batch that was just inserted to the inserter
    a second time: with capacity 1 and limit 1, the record of a first line
    that validates is inserted twice, and 2 rows are counted as inserted
    for 1 row parsed. *)
Theorem limit_break_inserts_batch_twice csv_headers line lines r :
  valid_line validate csv_headers line r ->
  exists st,
    (forall fuel, (2 <= fuel)%nat ->
       migrate (csv_headers :: line :: lines) 1 (Some 1) fuel = Some (Returned st))
    /\ insert_calls st = [[r]; [r]]
    /\ total_rows_parsed st = 1
    /\ total_rows_inserted st = 2.
Proof.
  intros (row & Hrow & Hr).
  pose proof (body_valid validate 1 (Some 1)
                (initial_state (csv_headers :: line :: lines)) row
                (Suspended csv_headers lines) r) as Hbody1.
  simpl in Hbody1. rewrite Hrow in Hbody1.
  specialize (Hbody1 eq_refl eq_refl Hr). name_next_state Hbody1 st1.
  pose proof (body_insert_break validate 1 (Some 1) st1) as Hbody2.
  specialize (Hbody2 ltac:(subst st1; simpl; lia) eq_refl).
  name_next_state Hbody2 st2.
  exists (after_loop 1 st2). split.
  - intros [|[|fuel]] Hle; [lia|lia|].
    unfold migrate_craigslist_records_csv_from_zip_to_db. simpl.
    fold st1. rewrite Hbody1. fold st2. by rewrite Hbody2.
  - by vm_compute.
Qed.

(** C1, as stated, fails: with limit 3 and capacity 10, on four lines that
    validate the driver parses four rows and inserts them as one batch of
    four. *)
Lemma limit_three_capacity_ten_four_rows :
  match
    migrate_craigslist_records_csv_from_zip_to_db example_validate
      [example_headers; ["100"; "4 cylinders"]; ["200"; "6 cylinders"];
       ["300"; "8 cylinders"]; ["400"; ""]] 10 (Some 3) 6
  with
  | Some (Returned st) =>
      total_rows_parsed st = 4
      /\ length <$> insert_calls st = [4%nat]
      /\ ~ (total_rows_parsed st = 3
            /\ Forall (fun size => (size <= 3)%nat) (length <$> insert_calls st))
  | _ => False
  end.
Proof.
  vm_compute. split; [reflexivity|]. split; [reflexivity|].
  intros [H _]. discriminate H.
Qed.

(** C1, amended. With limit 3 and capacity 10 the limit is looked at only
    when a full batch of 10 has been inserted. On [n] lines that all
    validate the driver returns after parsing [min n 10] rows; when
    [n < 10] it calls the inserter exactly once, on the batch of all [n]
    records (and not at all when [n = 0]); when [10 <= n] the first batch
    it inserts is the batch of the first ten records, after which it reads
    no further line. *)
Theorem limit_three_capacity_ten csv_headers lines recs :
  Forall2 (valid_line validate csv_headers) lines recs ->
  exists st,
    (forall fuel, (length lines + 2 <= fuel)%nat ->
       migrate (csv_headers :: lines) 10 (Some 3) fuel = Some (Returned st))
    /\ total_rows_parsed st = Z.of_nat (min (length lines) 10)
    /\ ((length lines < 10)%nat ->
        insert_calls st = match recs with [] => [] | _ :: _ => [recs] end)
    /\ ((10 <= length lines)%nat ->
        head (insert_calls st) = Some (take 10 recs)
        /\ remaining (csv_lines_iterator st) = drop 10 lines).
Proof.
  intros Hvalid. pose proof (Forall2_length _ _ _ Hvalid) as Hlen.
  destruct (le_lt_dec 10 (length lines)) as [Hlong|Hshort].
  - (* a full batch is read, inserted, and the limit stops the loop *)
    destruct (read_valid_lines validate 10 (Some 3) (take 10 lines) (take 10 recs)
                (initial_state (csv_headers :: lines)) csv_headers (drop 10 lines))
      as (st1 & Hrun & Hit & Heff).
    { by apply Forall2_take. }
    { simpl. by rewrite take_drop. }
    { rewrite length_take, Nat.min_l by lia. reflexivity. }
    rewrite length_take, Nat.min_l in Hrun, Heff by lia.
    apply effects_inv in Heff as (Hc & Hp & Hi & Hb & Hcalls).
    change (rows_count_in_current_batch st1 = 10) in Hc.
    change (total_rows_parsed st1 = 10) in Hp.
    change (current_batch st1 = take 10 recs) in Hb.
    change (insert_calls st1 = []) in Hcalls.
    pose proof (body_insert_break validate 10 (Some 3) st1) as Hbody.
    rewrite Hc, Hp in Hbody. specialize (Hbody ltac:(lia) eq_refl).
    name_next_state Hbody st2.
    assert (exists r b, take 10 recs = r :: b) as (r & b & Hrb).
    { destruct (take 10 recs) eqn:E; [|eauto].
      apply (f_equal length) in E. rewrite length_take, Nat.min_l in E by lia.
      discriminate. }
    pose proof (after_loop_effects 10 st2) as Heff2.
    assert (current_batch st2 = r :: b) as Hb2 by (rewrite <- Hrb; exact Hb).
    rewrite Hb2 in Heff2.
    apply effects_inv in Heff2 as (_ & Hp2 & _ & _ & Hcalls2).
    exists (after_loop 10 st2). split; [|split; [|split]].
    + intros fuel Hle.
      unfold migrate_craigslist_records_csv_from_zip_to_db.
      replace fuel with (10 + S (fuel - 11))%nat by lia.
      rewrite Hrun. simpl. by rewrite Hbody.
    + rewrite Nat.min_r by lia. by rewrite Hp2.
    + lia.
    + intros _. split.
      * rewrite Hcalls2. subst st2. simpl. by rewrite Hcalls, Hb.
      * unfold after_loop. rewrite Hb2. simpl.
        by rewrite <- (remaining_started (csv_lines_iterator st1)), Hit.
  - (* the lines run out before the batch is full *)
    destruct (read_valid_lines validate 10 (Some 3) lines recs
                (initial_state (csv_headers :: lines)) csv_headers [])
      as (st1 & Hrun & Hit & Heff).
    { exact Hvalid. }
    { simpl. by rewrite app_nil_r. }
    { simpl. lia. }
    apply effects_inv in Heff as (Hc & Hp & Hi & Hb & Hcalls).
    simpl in Hc, Hp, Hi, Hb, Hcalls.
    pose proof (body_stop validate 10 (Some 3) st1 Closed) as Hbody.
    rewrite (next_of_started _ _ _ Hit) in Hbody.
    specialize (Hbody ltac:(lia) eq_refl). name_next_state Hbody st2.
    pose proof (after_loop_effects 10 st2) as Heff2.
    assert (current_batch st2 = recs) as Hb2 by exact Hb.
    assert (total_rows_parsed st2 = Z.of_nat (length lines)) as Hp2 by exact Hp.
    assert (insert_calls st2 = []) as Hcalls2 by exact Hcalls.
    rewrite Hb2 in Heff2.
    exists (after_loop 10 st2). split; [|split; [|split]].
    + intros fuel Hle.
      unfold migrate_craigslist_records_csv_from_zip_to_db.
      replace fuel with (length lines + S (fuel - length lines - 1))%nat by lia.
      rewrite Hrun. simpl. by rewrite Hbody.
    + rewrite Nat.min_l by lia.
      destruct recs; apply effects_inv in Heff2 as (_ & -> & _); exact Hp2.
    + intros _.
      destruct recs; apply effects_inv in Heff2 as (_ & _ & _ & _ & ->);
        by rewrite Hcalls2.
    + lia.
Qed.

(** C5. A row that fails validation is skipped and the run goes on. The
    turn of the loop that reads it prints the error, the row and a
    separator, appends nothing to the batch, counts nothing, and hands over
    to the next turn; and the driver ends on the CSV that holds the line of
    that row as it ends on the CSV without the line, with the same counters
    and the same batches passed to the inserter. *)
Theorem invalid_row_is_skipped csv_headers lines1 line lines2
    (row : NormalizedRow) (e : PydanticValidationError)
    (batch_size : Z) (max_rows_to_parse : option Z) :
  normalize_line csv_headers line = inr row ->
  validate row = inl e ->
  0 < batch_size ->
  (forall (st : State) g,
     rows_count_in_current_batch st < batch_size ->
     next (csv_lines_iterator st) = (Yield row, g) ->
     loop_body validate batch_size max_rows_to_parse st
     = Continue
         (mkState g (rows_count_in_current_batch st) (total_rows_parsed st)
            (total_rows_inserted st) (current_batch st) (insert_calls st)
            (stdout st ++ [PrintProgress (total_rows_parsed st);
                           PrintValidationError e; PrintRecordDict row;
                           PrintSeparator])))
  /\ exists o1 o2,
       (forall fuel, (2 * length (lines1 ++ line :: lines2) + 2 <= fuel)%nat ->
          migrate (csv_headers :: lines1 ++ lines2) batch_size max_rows_to_parse fuel
          = Some o1
          /\ migrate (csv_headers :: lines1 ++ line :: lines2) batch_size
               max_rows_to_parse fuel
             = Some o2)
       /\ same_effects o1 o2.
Proof.
  intros Hrow He Hpos. split.
  - intros st g Hlt Hnext. exact (body_invalid validate _ _ st _ _ _ Hlt Hnext He).
  - destruct (while_true_terminates validate batch_size max_rows_to_parse Hpos
                (initial_state (csv_headers :: lines1 ++ lines2)))
      as (fuel1 & o1 & Hfuel1 & Hrun1).
    destruct (skip_invalid_line validate batch_size max_rows_to_parse
                csv_headers line row e fuel1 Hrow He lines1 lines2
                (initial_state (csv_headers :: lines1 ++ lines2))
                (initial_state (csv_headers :: lines1 ++ line :: lines2))
                o1 eq_refl eq_refl eq_refl Hrun1)
      as (o2 & Hrun2 & Hsame).
    exists o1, o2. split; [|exact Hsame].
    simpl in Hfuel1. rewrite length_app in Hfuel1 |- *. simpl length.
    intros fuel Hle. split.
    + apply (while_true_mono _ _ _ fuel1); [exact Hrun1|lia].
    + apply (while_true_mono _ _ _ (S fuel1)); [exact Hrun2|lia].
Qed.

End DriverClaims.

(** *** The claims of the driver on an example *)

(** Discharges [valid_line] on the lines of the examples, whose records
    are the rows themselves. *)
Ltac compute_line :=
  lazymatch goal with
  | |- Forall2 _ [] [] => apply Forall2_nil_2
  | |- Forall2 _ (_ :: _) (_ :: _) => apply Forall2_cons_2; [compute_line|compute_line]
  | |- valid_line _ _ _ ?r => exists r; split; vm_compute; reflexivity
  end.

Lemma limit_three_capacity_ten_witness :
  exists st,
    migrate_craigslist_records_csv_from_zip_to_db example_validate
      [example_headers; ["100"; "4 cylinders"]; ["200"; "6 cylinders"];
       ["300"; "8 cylinders"]; ["400"; ""]] 10 (Some 3) 6
    = Some (Returned st)
    /\ total_rows_parsed st = 4
    /\ insert_calls st
       = [[example_record "100" (VInt 4); example_record "200" (VInt 6);
           example_record "300" (VInt 8); example_record "400" VNone]].
Proof.
  destruct (limit_three_capacity_ten example_validate example_headers
              [["100"; "4 cylinders"]; ["200"; "6 cylinders"];
               ["300"; "8 cylinders"]; ["400"; ""]]
              [example_record "100" (VInt 4); example_record "200" (VInt 6);
               example_record "300" (VInt 8); example_record "400" VNone])
    as (st & Hrun & Hparsed & Hshort & _).
  - compute_line.
  - exists st. split; [apply Hrun; simpl; lia|]. split; [exact Hparsed|].
    apply Hshort. simpl. lia.
Defined.

Lemma limit_break_inserts_batch_twice_witness :
  exists st,
    migrate_craigslist_records_csv_from_zip_to_db example_validate
      [example_headers; ["100"; "4 cylinders"]; ["200"; "6 cylinders"]]
      1 (Some 1) 2
    = Some (Returned st)
    /\ insert_calls st
       = [[example_record "100" (VInt 4)]; [example_record "100" (VInt 4)]]
    /\ total_rows_parsed st = 1
    /\ total_rows_inserted st = 2.
Proof.
  destruct (limit_break_inserts_batch_twice example_validate example_headers
              ["100"; "4 cylinders"] [["200"; "6 cylinders"]]
              (example_record "100" (VInt 4)))
    as (st & Hrun & Hres).
  - compute_line.
  - exists st. split; [apply Hrun; lia|exact Hres].
Defined.

Lemma five_valid_rows_capacity_two_witness :
  exists st,
    migrate_craigslist_records_csv_from_zip_to_db example_validate
      [example_headers; ["100"; "4 cylinders"]; ["200"; "6 cylinders"];
       ["300"; "8 cylinders"]; ["400"; ""]; ["500"; "other"]] 2 None 12
    = Some (Returned st)
    /\ length <$> insert_calls st = [2; 2; 1]%nat
    /\ total_rows_inserted st = 5.
Proof.
  destruct (five_valid_rows_capacity_two example_validate example_headers
              [["100"; "4 cylinders"]; ["200"; "6 cylinders"];
               ["300"; "8 cylinders"]; ["400"; ""]; ["500"; "other"]]
              (example_record "100" (VInt 4)) (example_record "200" (VInt 6))
              (example_record "300" (VInt 8)) (example_record "400" VNone)
              (example_record "500" VNone))
    as (st & Hrun & _ & Hsizes & Hinserted).
  - compute_line.
  - exists st. split; [apply Hrun; lia|]. split; [exact Hsizes|exact Hinserted].
Defined.

Lemma invalid_row_is_skipped_witness :
  exists o1 o2,
    migrate_craigslist_records_csv_from_zip_to_db example_validate
      [example_headers; ["100"; "4 cylinders"]; ["200"; "6 cylinders"]] 2 None 8
    = Some o1
    /\ migrate_craigslist_records_csv_from_zip_to_db example_validate
         [example_headers; ["100"; "4 cylinders"]; ["n/a"; "4 cylinders"];
          ["200"; "6 cylinders"]] 2 None 8
       = Some o2
    /\ same_effects o1 o2.
Proof.
  destruct (invalid_row_is_skipped example_validate example_headers
              [["100"; "4 cylinders"]] ["n/a"; "4 cylinders"]
              [["200"; "6 cylinders"]] (example_record "n/a" (VInt 4))
              "price: not an integer" 2 None)
    as (_ & o1 & o2 & Hrun & Hsame).
  - vm_compute. reflexivity.
  - vm_compute. reflexivity.
  - reflexivity.
  - exists o1, o2. destruct (Hrun 8%nat) as [H1 H2]; [simpl; lia|].
    split; [exact H1|]. split; [exact H2|exact Hsame].
Defined.

Lemma unbounded_run_inserts_valid_records_once_in_order_witness :
  exists st,
    migrate_craigslist_records_csv_from_zip_to_db example_validate
      [example_headers; ["100"; "4 cylinders"]; ["n/a"; "4 cylinders"];
       ["200"; "6 cylinders"]] 1 None 8
    = Some (Returned st)
    /\ concat (insert_calls st)
       = [example_record "100" (VInt 4); example_record "200" (VInt 6)].
Proof.
  destruct (unbounded_run_inserts_valid_records_once_in_order example_validate
              example_headers
              [["100"; "4 cylinders"]; ["n/a"; "4 cylinders"];
               ["200"; "6 cylinders"]] 1)
    as (st & Hrun & Hconcat & _).
  - reflexivity.
  - repeat apply Forall_cons_2; [| | |apply Forall_nil_2].
    + exists (example_record "100" (VInt 4)). vm_compute. reflexivity.
    + exists (example_record "n/a" (VInt 4)). vm_compute. reflexivity.
    + exists (example_record "200" (VInt 6)). vm_compute. reflexivity.
  - exists st. split; [apply Hrun; simpl; lia|].
    rewrite Hconcat. vm_compute. reflexivity.
Defined.

(** * Further properties *)

(** ** Field Normalizer *)

Section FieldNormalizerMore.

Lemma lstrip_split (s : string) :
  exists l, s = l +:+ lstrip s /\ all_space l = true.
Proof.
  induction s as [|c s (l & Hl & Hsp)]; [by exists ""|].
  simpl. destruct (is_space c) eqn:Hc.
  - exists (String c l). split; [|by simpl; rewrite Hc].
    change (String c s = String c (l +:+ lstrip s)). by rewrite <- Hl.
  - by exists "".
Qed.

Lemma rstrip_split (s : string) :
  exists r, s = rstrip s +:+ r /\ all_space r = true.
Proof.
  induction s as [|c s (r & Hr & Hsp)]; [by exists ""|].
  simpl. destruct (rstrip s) as [|d t] eqn:Hs.
  - destruct (is_space c) eqn:Hc.
    + exists (String c r). split; [|by simpl; rewrite Hc].
      change ("" +:+ r) with r in Hr. by rewrite <- Hr.
    + exists r. split; [|done].
      change (String c s = String c ("" +:+ r)). by rewrite <- Hr.
  - exists r. split; [|done].
    change (String c s = String c (String d t +:+ r)). by rewrite <- Hr.
Qed.

(** A string that [rstrip] leaves non-empty ends with a character that is
    not white space. *)
Lemma rstrip_last (s : string) :
  rstrip s = "" \/ exists u c, rstrip s = u +:+ String c "" /\ is_space c = false.
Proof.
  induction s as [|c s IH]; [by left|]. simpl.
  destruct (rstrip s) as [|d t] eqn:Hs.
  - destruct (is_space c) eqn:Hc; [by left|]. right. by exists "", c.
  - right. destruct IH as [|(u & e & Hu & He)]; [done|].
    exists (String c u), e. split; [|done].
    change (String c (String d t) = String c (u +:+ String e "")). by rewrite Hu.
Qed.

Lemma all_space_lstrip_empty (s : string) : all_space s = true <-> lstrip s = "".
Proof.
  induction s as [|c s IH]; simpl; [done|].
  destruct (is_space c); simpl; [exact IH|]. split; discriminate.
Qed.

Lemma all_space_app (s1 s2 : string) :
  all_space (s1 +:+ s2) = all_space s1 && all_space s2.
Proof.
  induction s1 as [|c s1 IH]; [reflexivity|].
  change (is_space c && all_space (s1 +:+ s2)
          = is_space c && all_space s1 && all_space s2).
  by rewrite IH, andb_assoc.
Qed.

(** X1. [strip_strings_and_replace_empty_strings_with_none] returns [None]
    exactly on the strings made of white space only (the empty string
    among them). On any other string it returns the string without the
    white space before its first and after its last character that is not
    white space: what is cut off on both sides is white space, and the
    result starts and ends with a character that is not. It never returns
    the empty string. *)
Theorem strip_cuts_surrounding_white_space (s : string) :
  match strip_strings_and_replace_empty_strings_with_none s with
  | VNone => all_space s = true
  | VStr t =>
      all_space s = false
      /\ (exists l r, s = l +:+ t +:+ r /\ all_space l = true /\ all_space r = true)
      /\ (exists c u, t = String c u /\ is_space c = false)
      /\ (exists u c, t = u +:+ String c "" /\ is_space c = false)
  | VInt _ => False
  end.
Proof.
  unfold strip_strings_and_replace_empty_strings_with_none, strip.
  destruct (lstrip_split s) as (l & Hl & Hlsp).
  destruct (rstrip_split (lstrip s)) as (r & Hr & Hrsp).
  pose proof (lstrip_not_space s) as Hfirst.
  destruct (decide (rstrip (lstrip s) <> "")) as [Hne|He].
  - destruct (lstrip s) as [|c t] eqn:Hs; [by simpl in Hne|].
    split; [|split; [|split]].
    + destruct (all_space s) eqn:Hall; [|done].
      apply all_space_lstrip_empty in Hall. congruence.
    + exists l, r. by rewrite <- Hr.
    + destruct (rstrip_head c t Hfirst) as [u ->]. by exists c, u.
    + by destruct (rstrip_last (String c t)).
  - apply dec_stable in He. rewrite He in Hr. change ("" +:+ r) with r in Hr.
    rewrite Hl, Hr, all_space_app, Hlsp, Hrsp. reflexivity.
Qed.

Lemma int_acc_lower (ds : string) (acc : Z) :
  all_digits ds = true -> 0 <= acc -> 0 <= int_acc acc ds.
Proof.
  revert acc. induction ds as [|c ds IH]; intros acc Hds Hacc; simpl; [done|].
  simpl in Hds. apply andb_prop in Hds as [Hc Hds]. apply IH; [done|].
  unfold is_digit in Hc. unfold digit_value. lia.
Qed.

Lemma int_acc_upper (ds : string) (acc : Z) :
  all_digits ds = true -> 0 <= acc ->
  int_acc acc ds < (acc + 1) * 10 ^ Z.of_nat (String.length ds).
Proof.
  revert acc. induction ds as [|c ds IH]; intros acc Hds Hacc.
  - simpl. lia.
  - simpl in Hds. apply andb_prop in Hds as [Hc Hds].
    simpl int_acc. simpl String.length. rewrite Nat2Z.inj_succ, Z.pow_succ_r by lia.
    unfold is_digit in Hc. unfold digit_value in *.
    set (d := Z.of_N (N_of_ascii c)) in *.
    assert (0 <= 10 * acc + (d - 48)) as Hacc' by lia.
    specialize (IH _ Hds Hacc').
    assert (0 < 10 ^ Z.of_nat (String.length ds)) by (apply Z.pow_pos_nonneg; lia).
    nia.
Qed.

(** X2. On a string that starts with a non-empty run of digits [ds]
    followed by anything that does not start with a digit,
    [extract_cylinders_int_value_from_cylinders_str] looks at the run only.
    When the run has at most 4300 digits it returns the number that [ds]
    denotes in decimal notation, which is not negative and is below
    [10 ^ len(ds)]; when the run is longer, the [ValueError] of [int]
    leaves the function. *)
Theorem extract_cylinders_reads_digit_run (ds rest : string) :
  ds <> "" ->
  all_digits ds = true ->
  (forall c, String.get 0%nat rest = Some c -> is_digit c = false) ->
  if decide (Z.of_nat (String.length ds) <= int_max_str_digits)
  then exists u,
         NilZero.uint_of_string ds = Some u
         /\ extract_cylinders_int_value_from_cylinders_str (VStr (ds +:+ rest))
            = inr (VInt (Z.of_uint u))
         /\ 0 <= Z.of_uint u < 10 ^ Z.of_nat (String.length ds)
  else extract_cylinders_int_value_from_cylinders_str (VStr (ds +:+ rest))
       = inl ValueError.
Proof.
  intros Hne Hds Hrest.
  unfold extract_cylinders_int_value_from_cylinders_str.
  rewrite (re_match_digit_run ds rest Hne Hds Hrest).
  destruct (decide (Z.of_nat (String.length ds) <= int_max_str_digits)) as [Hlen|Hlen].
  - destruct (int_decimal ds Hne Hds Hlen) as (u & Hu & Hint).
    exists u. split; [exact Hu|]. rewrite Hint. split; [done|].
    unfold int in Hint. destruct (_ <=? _); [|discriminate].
    injection Hint as <-. split; [by apply int_acc_lower|].
    pose proof (int_acc_upper ds 0 Hds ltac:(lia)). lia.
  - by rewrite int_too_long by lia.
Qed.

Lemma extract_cylinders_reads_digit_run_witness :
  extract_cylinders_int_value_from_cylinders_str (VStr "012-valve")
  = inr (VInt 12).
Proof.
  destruct (extract_cylinders_reads_digit_run "012" "-valve")
    as (u & Hu & Hrun & _).
  - discriminate.
  - reflexivity.
  - intros c [= <-]. reflexivity.
  - vm_compute in Hu. injection Hu as <-. exact Hrun.
Defined.

End FieldNormalizerMore.

(** ** Streaming Record Reader *)

Section ReaderMore.

Implicit Types (csv_headers line : list string) (row : NormalizedRow).

(** What [next] does, read off the line at the head of the generator. *)
Lemma next_inv (g : Generator) (r : Next) (g' : Generator) :
  next g = (r, g') ->
  (g = Created [] /\ r = Raise RuntimeError /\ g' = Closed)
  \/ (g = Closed /\ r = StopIteration /\ g' = Closed)
  \/ (exists csv_headers,
        started g = Suspended csv_headers [] /\ r = StopIteration /\ g' = Closed)
  \/ (exists csv_headers line rest,
        started g = Suspended csv_headers (line :: rest)
        /\ match normalize_line csv_headers line with
           | inr row => r = Yield row /\ g' = Suspended csv_headers rest
           | inl e => r = Raise e /\ g' = Closed
           end).
Proof.
  destruct g as [[|h [|line rest]]|h [|line rest]|]; simpl;
    try destruct (normalize_line h line) as [e|row] eqn:Hrow; intros [= <- <-];
    try (by left); try (by right; left); try (by right; right; left; exists h);
    right; right; right; exists h, line, rest; by rewrite Hrow.
Qed.

Local Abbreviation insert_pair :=
  (fun (d : NormalizedRow) (kv : string * Value) => <[kv.1 := kv.2]> d).

(** The column of a header holds the cell at the last position at which
    the header stands before a cell. *)
Lemma dict_zip_lookup_last csv_headers line (i : nat) (h cell : string) :
  csv_headers !! i = Some h -> line !! i = Some cell ->
  h ∉ drop (S i) (take (length line) csv_headers) ->
  dict (zip csv_headers
          (map strip_strings_and_replace_empty_strings_with_none line)) !! h
  = Some (strip_strings_and_replace_empty_strings_with_none cell).
Proof.
  intros Hi Hcell Hlast.
  set (cells := map strip_strings_and_replace_empty_strings_with_none line).
  assert (cells !! i = Some (strip_strings_and_replace_empty_strings_with_none cell))
    as Hcells.
  { unfold cells.
    change (map strip_strings_and_replace_empty_strings_with_none line)
      with (strip_strings_and_replace_empty_strings_with_none <$> line).
    by rewrite list_lookup_fmap, Hcell. }
  unfold dict. rewrite (zip_split_at _ _ i _ _ Hi Hcells).
  apply lookup_fold_insert_last.
  rewrite fst_zip_take, length_drop, take_drop_commute.
  unfold cells. rewrite length_map.
  assert (S i <= length line)%nat by (apply lookup_lt_Some in Hcell; lia).
  by replace (S i + (length line - S i))%nat with (length line) by lia.
Qed.

(** X3. What [next] does on a data line that [csv.reader] produced. On a
    line that leaves the column [cylinders] without a cell it raises
    [KeyError] for [cylinders]. On a line with a cell for [cylinders] it
    looks at the run of digits at the start of the stripped cell: when the
    run has more than 4300 digits the [ValueError] of [int] leaves [next],
    otherwise [next] yields a row and the generator goes on to the lines
    that follow. After it raised, the generator is closed, and a [next] on
    a closed generator stops the iteration: the lines after a failing line
    are never read. *)
Theorem reader_on_a_data_line (g : Generator) csv_headers line
    (rest : list (list string)) :
  started g = Suspended csv_headers (line :: rest) ->
  ("cylinders" ∉ take (length line) csv_headers ->
   next g = (Raise (KeyError "cylinders"), Closed))
  /\ (forall (i : nat) cell,
        csv_headers !! i = Some "cylinders" -> line !! i = Some cell ->
        "cylinders" ∉ drop (S i) (take (length line) csv_headers) ->
        if decide (Z.of_nat (String.length (leading_digits (strip cell)))
                   <= int_max_str_digits)
        then exists row, next g = (Yield row, Suspended csv_headers rest)
        else next g = (Raise ValueError, Closed))
  /\ next Closed = (StopIteration, Closed).
Proof.
  intros Hg. rewrite <- (next_started g), Hg. simpl. split; [|split; [|done]].
  - intros Hnot. by rewrite (normalize_line_KeyError _ _ Hnot).
  - intros i cell Hi Hcell Hlast. unfold normalize_line.
    rewrite (dict_zip_lookup_last _ _ _ _ _ Hi Hcell Hlast).
    unfold strip_strings_and_replace_empty_strings_with_none.
    destruct (decide (strip cell <> "")) as [Hne|He].
    + unfold extract_cylinders_int_value_from_cylinders_str, re_match_digits.
      destruct (leading_digits (strip cell)) as [|d ds] eqn:Hrun.
      * destruct (decide _) as [|Hlen]; [eauto|]. by destruct Hlen.
      * unfold int.
        destruct (decide _) as [Hlen|Hlen].
        -- apply Z.leb_le in Hlen. rewrite Hlen. eauto.
        -- apply Z.nle_gt, Z.leb_gt in Hlen. by rewrite Hlen.
    + apply dec_stable in He.
      destruct (decide _) as [|Hlen]; [simpl; eauto|].
      exfalso. apply Hlen. rewrite He. unfold int_max_str_digits. simpl. lia.
Qed.

Lemma reader_on_a_data_line_witness :
  next (Suspended ["price"; "cylinders"] [["100"]; ["200"; "4 cylinders"]])
  = (Raise (KeyError "cylinders"), Closed)
  /\ (exists row,
        next (Suspended ["price"; "cylinders"] [["200"; "4 cylinders"]])
        = (Yield row, Suspended ["price"; "cylinders"] []))
  /\ next Closed = (StopIteration, Closed).
Proof.
  destruct (reader_on_a_data_line
              (Suspended ["price"; "cylinders"] [["100"]; ["200"; "4 cylinders"]])
              ["price"; "cylinders"] ["100"] [["200"; "4 cylinders"]] eq_refl)
    as (Hkey & _ & Hclosed).
  destruct (reader_on_a_data_line
              (Suspended ["price"; "cylinders"] [["200"; "4 cylinders"]])
              ["price"; "cylinders"] ["200"; "4 cylinders"] [] eq_refl)
    as (_ & Hcell & _).
  split; [|split; [|exact Hclosed]].
  - apply Hkey. simpl.
    intros H. repeat (apply elem_of_cons in H as [H|H]; [discriminate|]).
    by apply elem_of_nil in H.
  - apply (Hcell 1%nat "4 cylinders"); [reflexivity|reflexivity|].
    simpl. apply not_elem_of_nil.
Defined.

Lemma leading_digits_all_digits (s : string) : all_digits (leading_digits s) = true.
Proof.
  induction s as [|c s IH]; simpl; [done|].
  destruct (is_digit c) eqn:Hc; simpl; [by rewrite Hc|done].
Qed.

(** The values that the two normalizers give to a cell. *)
Lemma stripped_value (cell : string) :
  strip_strings_and_replace_empty_strings_with_none cell = VNone
  \/ exists t, strip_strings_and_replace_empty_strings_with_none cell = VStr t
               /\ t <> "" /\ strip t = t.
Proof.
  unfold strip_strings_and_replace_empty_strings_with_none.
  destruct (decide (strip cell <> "")) as [Hne|]; [right|by left].
  exists (strip cell). split; [done|]. split; [done|]. apply strip_idempotent.
Qed.

Lemma extracted_value (cell : string) (c : Value) :
  extract_cylinders_int_value_from_cylinders_str
    (strip_strings_and_replace_empty_strings_with_none cell) = inr c ->
  c = VNone \/ exists n, c = VInt n /\ 0 <= n.
Proof.
  destruct (stripped_value cell) as [->|(t & -> & _)]; simpl.
  - intros [= <-]. by left.
  - unfold re_match_digits.
    pose proof (leading_digits_all_digits t) as Hds.
    destruct (leading_digits t) as [|d ds] eqn:E; [intros [= <-]; by left|].
    unfold int. destruct (_ <=? _); simpl; [|discriminate]. intros [= <-].
    right. eexists. split; [done|].
    change (0 <= int_acc 0 (String d ds)). by apply int_acc_lower.
Qed.

Lemma dict_zip_lookup_cell csv_headers line (k : string) (v : Value) :
  dict (zip csv_headers
          (map strip_strings_and_replace_empty_strings_with_none line)) !! k
  = Some v ->
  exists cell, cell ∈ line /\ v = strip_strings_and_replace_empty_strings_with_none cell.
Proof.
  intros Hv. apply lookup_fold_insert_Some in Hv as [Hv|Hv];
    [by rewrite lookup_empty in Hv|].
  apply elem_of_zip_r, list_elem_of_fmap in Hv as (cell & -> & Hcell). eauto.
Qed.

(** X4. In every row that the reader yields, [cylinders] holds [None] or
    an integer that is not negative, and every other column holds [None]
    or a string that is not empty and has no white space at its ends: no
    column holds an empty string, and no column but [cylinders] holds an
    integer. *)
Theorem yielded_row_values (g g' : Generator) row :
  next g = (Yield row, g') ->
  (exists c, row !! "cylinders" = Some c
             /\ (c = VNone \/ exists n, c = VInt n /\ 0 <= n))
  /\ (forall k v, k <> "cylinders" -> row !! k = Some v ->
        v = VNone \/ exists t, v = VStr t /\ t <> "" /\ strip t = t).
Proof.
  intros Hnext.
  apply next_inv in Hnext
    as [(_ & Hr & _)|[(_ & Hr & _)|[(h & _ & Hr & _)|(h & line & rest & _ & Hline)]]];
    try discriminate Hr.
  destruct (normalize_line h line) as [e|row'] eqn:Hrow;
    destruct Hline as [Hr _]; [discriminate Hr|].
  injection Hr as ->.
  apply normalize_line_inr in Hrow as (v0 & c & Hv0 & Hc & ->).
  apply dict_zip_lookup_cell in Hv0 as (cell & _ & ->).
  split.
  - exists c. split; [apply lookup_insert_eq|]. by apply (extracted_value cell).
  - intros k v Hk Hv. rewrite lookup_insert_ne in Hv by done.
    apply dict_zip_lookup_cell in Hv as (cell' & _ & ->).
    destruct (stripped_value cell') as [->|(t & -> & Ht)]; [by left|right; eauto].
Qed.

Lemma yielded_row_values_witness :
  exists c, ({[ "price" := VStr "100"; "cylinders" := VInt 4 ]} : NormalizedRow)
              !! "cylinders" = Some c
            /\ (c = VNone \/ exists n, c = VInt n /\ 0 <= n).
Proof.
  assert (next (Created [["price"; "cylinders"]; [" 100 "; "4 cylinders"]])
          = (Yield {[ "price" := VStr "100"; "cylinders" := VInt 4 ]},
             Suspended ["price"; "cylinders"] [])) as H by (vm_compute; reflexivity).
  exact (proj1 (yielded_row_values _ _ _ H)).
Defined.

End ReaderMore.

(** ** Migration Driver *)

Lemma batches_room {A} (n : nat) (current records1 records2 : list A) :
  (length current + length records1 <= n)%nat ->
  batches n current (records1 ++ records2) = batches n (current ++ records1) records2.
Proof.
  revert current. induction records1 as [|r records1 IH]; intros current Hlen; simpl.
  - by rewrite app_nil_r.
  - simpl in Hlen. destruct (decide (length current < n)%nat); [|lia].
    rewrite IH by (rewrite length_app; simpl; lia). by rewrite <- app_assoc.
Qed.

(** Full batches followed by a shorter one are the batches of their
    records put end to end. *)
Lemma batches_of_full {A} (n : nat) (full : list (list A)) (tail : list A) :
  (0 < n)%nat ->
  Forall (fun batch => length batch = n) full ->
  (length tail <= n)%nat ->
  batches n [] (concat full ++ tail) = full ++ pending tail.
Proof.
  intros Hn Hfull Htail. induction Hfull as [|batch full Hbatch _ IH]; simpl.
  - rewrite <- (app_nil_r tail) at 1. rewrite batches_room by (simpl; lia).
    simpl. by destruct tail.
  - rewrite <- app_assoc, batches_room by (simpl; lia). simpl.
    rewrite batches_full by lia. by rewrite IH.
Qed.

Lemma limit_reached_mono (max_rows_to_parse : option Z) (p q : Z) :
  limit_reached max_rows_to_parse q = false -> p <= q ->
  limit_reached max_rows_to_parse p = false.
Proof.
  destruct max_rows_to_parse as [m|]; simpl; [|done].
  destruct (m =? 0); simpl; [done|]. rewrite !Z.leb_gt. lia.
Qed.

Section DriverMore.

Context {CraigslistVehicleRecord PydanticValidationError : Type}.
Variable validate :
  NormalizedRow -> PydanticValidationError + CraigslistVehicleRecord.
Variable batch_size : Z.
Variable max_rows_to_parse : option Z.
Variable csv_headers : list string.
Hypothesis positive_capacity : 0 < batch_size.

Local Abbreviation St := (@State CraigslistVehicleRecord PydanticValidationError).
Local Abbreviation body := (loop_body validate batch_size max_rows_to_parse).
Local Abbreviation while fuel := (while_true validate fuel batch_size max_rows_to_parse).
Local Abbreviation invariant :=
  (loop_invariant validate batch_size max_rows_to_parse csv_headers).
Local Abbreviation ends_as :=
  (ends validate batch_size max_rows_to_parse csv_headers).
Local Abbreviation validated := (validated_records validate csv_headers).

Implicit Types (st : St) (consumed rest lines : list (list string)).

Lemma validated_records_app lines1 lines2 :
  validated (lines1 ++ lines2) = validated lines1 ++ validated lines2.
Proof. apply omap_app. Qed.

Lemma full_batches_length (calls : list (list CraigslistVehicleRecord)) :
  Forall (fun batch => Z.of_nat (length batch) = batch_size) calls ->
  Z.of_nat (length (concat calls)) = batch_size * Z.of_nat (length calls).
Proof.
  induction 1 as [|batch calls Hbatch _ IH]; simpl; [lia|].
  rewrite length_app. lia.
Qed.

(** One turn of the loop keeps the invariant, or ends the run in one of
    the three ways. *)
Lemma invariant_body consumed rest st :
  invariant consumed rest st ->
  match body st with
  | Continue st' =>
      exists consumed' rest',
        consumed ++ rest = consumed' ++ rest' /\ invariant consumed' rest' st'
  | Break st' => ends_as (consumed ++ rest) (Returned (after_loop batch_size st'))
  | Propagate e st' => ends_as (consumed ++ rest) (Raised e st')
  end.
Proof.
  intros [Hit Hread Hcount Hroom Hfull Hrecs Hins Hparsed Hlim].
  destruct (Z_lt_le_dec (rows_count_in_current_batch st) batch_size) as [Hlt|Hge].
  - (* the batch has room: a line is read *)
    pose proof (next_of_started _ _ _ Hit) as Hnext.
    destruct rest as [|line rest]; simpl in Hnext.
    + (* no line left *)
      rewrite (body_stop validate _ _ st _ Hlt Hnext), app_nil_r.
      rewrite app_nil_r in Hread || idtac.
      match goal with |- context [after_loop _ ?s] =>
        pose proof (after_loop_effects batch_size s) as Heff; set (st' := s) in * end.
      simpl in Heff.
      apply (ends_at_end_of_input _ _ _ _ _ _ (insert_calls st) (current_batch st)).
      * exact Hread.
      * exact Hrecs.
      * exact Hfull.
      * lia.
      * destruct (current_batch st);
          apply effects_inv in Heff as (_ & _ & _ & _ & ->); simpl;
          by rewrite ?app_nil_r.
      * destruct (current_batch st);
          apply effects_inv in Heff as (_ & -> & _); exact Hparsed.
      * rewrite <- Hrecs, length_app in Hparsed.
        destruct (current_batch st) eqn:Hb;
          apply effects_inv in Heff as (_ & -> & -> & _); simpl in *; lia.
      * intros Hne. rewrite <- Hins. by apply Hlim.
    + destruct (normalize_line csv_headers line) as [e|row] eqn:Hrow.
      * (* the reader raises *)
        rewrite (body_raise validate _ _ st _ _ Hlt Hnext).
        by apply (ends_on_error _ _ _ _ _ e _ consumed line rest); simpl; try lia.
      * destruct (validate row) as [e|r] eqn:Hval.
        -- (* the row does not validate *)
           rewrite (body_invalid validate _ _ st _ _ _ Hlt Hnext Hval).
           exists (consumed ++ [line]), rest. split; [by rewrite <- app_assoc|].
           assert (validated (consumed ++ [line]) = validated consumed) as Hsame.
           { rewrite validated_records_app,
               (validated_records_invalid validate _ _ [] _ _ Hrow Hval).
             apply app_nil_r. }
           split; simpl; rewrite ?Hsame; try done.
           apply Forall_app. split; [done|]. repeat constructor. by exists row.
        -- (* the row validates *)
           rewrite (body_valid validate _ _ st _ _ _ Hlt Hnext Hval).
           exists (consumed ++ [line]), rest. split; [by rewrite <- app_assoc|].
           assert (validated (consumed ++ [line]) = validated consumed ++ [r]) as Hsnoc.
           { by rewrite validated_records_app,
               (validated_records_valid validate _ _ [] _ _ Hrow Hval). }
           split; simpl; rewrite ?Hsnoc; try done.
           ++ apply Forall_app. split; [done|]. repeat constructor. by exists row.
           ++ rewrite length_app. simpl. lia.
           ++ lia.
           ++ by rewrite app_assoc, Hrecs.
           ++ rewrite length_app. simpl. lia.
  - (* the batch is full: it is inserted *)
    assert (rows_count_in_current_batch st = batch_size) as Hfullb by lia.
    assert (Forall (fun batch => Z.of_nat (length batch) = batch_size)
              (insert_calls st ++ [current_batch st])) as Hfull'.
    { apply Forall_app. split; [done|]. repeat constructor. lia. }
    assert (concat (insert_calls st ++ [current_batch st]) = validated consumed)
      as Hrecs' by (by rewrite concat_app; simpl; rewrite app_nil_r).
    assert (total_rows_parsed st
            = total_rows_inserted st + rows_count_in_current_batch st) as Hsum.
    { rewrite Hparsed, <- Hrecs, length_app. lia. }
    destruct (limit_reached max_rows_to_parse (total_rows_parsed st)) eqn:Hreached.
    + (* the limit stops the loop, and the batch is inserted again *)
      rewrite (body_insert_break validate _ _ st Hge Hreached).
      match goal with |- context [after_loop _ ?s] =>
        pose proof (after_loop_effects batch_size s) as Heff; set (st' := s) in * end.
      simpl in Heff.
      destruct (current_batch st) as [|r batch] eqn:Hb; [simpl in Hcount; lia|].
      apply effects_inv in Heff as (_ & Hp' & Hi' & _ & Hc').
      apply (ends_on_limit _ _ _ _ _ _ consumed rest (insert_calls st) (r :: batch)).
      * reflexivity.
      * exact Hread.
      * unfold after_loop. subst st'. simpl. rewrite ?Hb. simpl.
        by rewrite <- remaining_started, Hit.
      * exact Hrecs'.
      * exact Hfull'.
      * by rewrite Hc', <- app_assoc.
      * by rewrite Hp'.
      * rewrite Hp', Hi'. simpl. lia.
      * by rewrite Hp'.
      * intros Hne. rewrite Hp'. simpl.
        replace (total_rows_parsed st - batch_size) with (total_rows_inserted st)
          by lia.
        by apply Hlim.
    + (* the loop goes on with an empty batch *)
      rewrite (body_insert_continue validate _ _ st Hge Hreached).
      exists consumed, rest. split; [done|].
      split; simpl; try done; try lia.
      * by rewrite app_nil_r.
      * rewrite Hins, concat_app, length_app. simpl. rewrite app_nil_r. lia.
      * intros _. by rewrite <- Hsum.
Qed.

Lemma invariant_while fuel :
  forall st consumed rest o,
    invariant consumed rest st ->
    while fuel st = Some o ->
    ends_as (consumed ++ rest) o.
Proof.
  induction fuel as [|fuel IH]; intros st consumed rest o Hinv Hrun; [discriminate|].
  rewrite while_true_S in Hrun.
  pose proof (invariant_body consumed rest st Hinv) as Hbody.
  destruct (body st) as [st'|st'|e st'].
  - destruct Hbody as (consumed' & rest' & -> & Hinv'). by apply (IH st').
  - by injection Hrun as <-.
  - by injection Hrun as <-.
Qed.

(** With a positive capacity a run on a CSV that has a header row ends,
    within two turns of the loop per data line and two more, in one of
    the three ways. *)
Lemma run_ends lines :
  exists o,
    (forall fuel, (2 * length lines + 2 <= fuel)%nat ->
       migrate_craigslist_records_csv_from_zip_to_db validate
         (csv_headers :: lines) batch_size max_rows_to_parse fuel
       = Some o)
    /\ ends_as lines o.
Proof.
  destruct (while_true_terminates validate batch_size max_rows_to_parse
              positive_capacity (initial_state (csv_headers :: lines)))
    as (fuel0 & o & Hfuel & Hrun).
  exists o. split.
  - intros fuel Hle.
    apply (while_true_mono validate batch_size max_rows_to_parse fuel0 fuel _ _ Hrun).
    simpl in Hfuel. lia.
  - apply (invariant_while fuel0 (initial_state (csv_headers :: lines)) [] lines o);
      [|exact Hrun].
    split; simpl; try done. lia.
Qed.

End DriverMore.

(** Two ways of cutting a list after a prefix that satisfies [P]: the
    shorter prefix is a prefix of the one that is followed by an element
    not satisfying [P]. *)
Lemma prefix_before_first_failure {A} (P : A -> Prop) (l1 l2 r1 r2 : list A) (x : A) :
  Forall P l2 -> ~ P x -> l2 ++ r2 = l1 ++ x :: r1 -> exists d, l1 = l2 ++ d.
Proof.
  revert l1. induction l2 as [|y l2 IH]; intros l1 Hl2 Hx Heq.
  - by exists l1.
  - apply Forall_cons in Hl2 as [Hy Hl2]. destruct l1 as [|z l1]; simpl in Heq.
    + injection Heq as -> _. contradiction.
    + injection Heq as -> Heq. destruct (IH l1 Hl2 Hx Heq) as [d ->]. by exists d.
Qed.

Lemma first_failure_unique {A} (P : A -> Prop) (l1 l2 r1 r2 : list A) (x1 x2 : A) :
  Forall P l1 -> ~ P x1 -> Forall P l2 -> ~ P x2 ->
  l1 ++ x1 :: r1 = l2 ++ x2 :: r2 -> l1 = l2 /\ x1 = x2 /\ r1 = r2.
Proof.
  revert l2. induction l1 as [|y l1 IH]; intros l2 Hl1 Hx1 Hl2 Hx2 Heq.
  - destruct l2 as [|z l2]; simpl in Heq.
    + by injection Heq as -> ->.
    + injection Heq as -> _. apply Forall_cons in Hl2 as [Hz _]. contradiction.
  - apply Forall_cons in Hl1 as [Hy Hl1]. destruct l2 as [|z l2]; simpl in Heq.
    + injection Heq as -> _. contradiction.
    + injection Heq as -> Heq. apply Forall_cons in Hl2 as [_ Hl2].
      destruct (IH l2 Hl1 Hx1 Hl2 Hx2 Heq) as (-> & -> & ->). done.
Qed.

Lemma unreadable_line csv_headers line :
  "cylinders" ∉ take (length line) csv_headers -> ~ readable_line csv_headers line.
Proof. intros Hnot Hread. by apply normalize_line_yields in Hread. Qed.

Lemma raising_line csv_headers line (e : Exn) :
  normalize_line csv_headers line = inl e -> ~ readable_line csv_headers line.
Proof. intros He [row Hrow]. congruence. Qed.

Section DriverExtras.

Context {CraigslistVehicleRecord PydanticValidationError : Type}.
Variable validate :
  NormalizedRow -> PydanticValidationError + CraigslistVehicleRecord.

Local Abbreviation migrate :=
  (migrate_craigslist_records_csv_from_zip_to_db validate).
Local Abbreviation validated := (validated_records validate).

Implicit Types (csv_headers line : list string) (lines : list (list string)).
Implicit Types (batch_size : Z) (max_rows_to_parse : option Z).

(** X5. With a positive batch capacity the driver ends on every CSV and
    for every limit: it returns or an exception of the reader leaves it,
    after at most two turns of the loop per row of the CSV and two more. *)
Theorem driver_ends_with_positive_capacity (csv_rows : list (list string))
    batch_size max_rows_to_parse :
  0 < batch_size ->
  exists o,
    forall fuel, (2 * length csv_rows + 2 <= fuel)%nat ->
      migrate_craigslist_records_csv_from_zip_to_db validate csv_rows batch_size
        max_rows_to_parse fuel
      = Some o.
Proof.
  intros Hpos.
  destruct (while_true_terminates validate batch_size max_rows_to_parse Hpos
              (initial_state csv_rows)) as (fuel0 & o & Hfuel & Hrun).
  exists o. intros fuel Hle.
  apply (while_true_mono validate batch_size max_rows_to_parse fuel0 fuel _ _ Hrun).
  destruct csv_rows; simpl in *; lia.
Qed.

Lemma while_true_no_capacity_no_row batch_size max_rows_to_parse fuel :
  forall st : @State CraigslistVehicleRecord PydanticValidationError,
    batch_size <= 0 ->
    limit_reached max_rows_to_parse 0 = false ->
    rows_count_in_current_batch st = 0 ->
    total_rows_parsed st = 0 ->
    while_true validate fuel batch_size max_rows_to_parse st = None.
Proof.
  induction fuel as [|fuel IH]; intros st Hcap Hlim Hcount Hparsed; [reflexivity|].
  rewrite while_true_S, (body_insert_continue validate _ _ st)
    by (rewrite ?Hcount, ?Hparsed; auto).
  by apply IH.
Qed.

Lemma turns_without_capacity batch_size max_rows_to_parse (n : nat) :
  forall st : @State CraigslistVehicleRecord PydanticValidationError,
    batch_size <= 0 ->
    limit_reached max_rows_to_parse 0 = false ->
    rows_count_in_current_batch st = 0 ->
    current_batch st = [] ->
    total_rows_parsed st = 0 ->
    exists st',
      state_after_turns validate batch_size max_rows_to_parse n st = Some st'
      /\ csv_lines_iterator st' = csv_lines_iterator st
      /\ insert_calls st' = insert_calls st ++ replicate n []
      /\ total_rows_parsed st' = 0
      /\ total_rows_inserted st' = total_rows_inserted st.
Proof.
  induction n as [|n IH]; intros st Hcap Hlim Hcount Hbatch Hparsed.
  - exists st. simpl. by rewrite app_nil_r.
  - cbn [state_after_turns].
    rewrite (body_insert_continue validate _ _ st)
      by (rewrite ?Hcount, ?Hparsed; auto).
    destruct (IH (mkState (csv_lines_iterator st) 0 (total_rows_parsed st)
                    (total_rows_inserted st + rows_count_in_current_batch st) []
                    (insert_calls st ++ [current_batch st])
                    (stdout_inserted batch_size st)))
      as (st' & Hturns & Hit & Hcalls & Hparsed' & Hins); auto.
    exists st'. split; [exact Hturns|]. split; [exact Hit|].
    split; [|split; [exact Hparsed'|]].
    + rewrite Hcalls. simpl. by rewrite Hbatch, <- app_assoc.
    + rewrite Hins. simpl. rewrite Hcount. lia.
Qed.

(** X6. With a batch capacity that is not positive the driver never reads
    a row of the CSV. Unless the limit is negative the loop does not end:
    every turn goes on to a next turn, and after [n] turns the generator
    has not been entered, the inserter has been called [n] times, each time
    with an empty batch, and both counters are 0. With a negative limit the
    driver returns after one turn, having passed one empty batch to the
    inserter and with the generator not entered. *)
Theorem driver_without_capacity_reads_no_row (csv_rows : list (list string))
    batch_size max_rows_to_parse :
  batch_size <= 0 ->
  if limit_reached max_rows_to_parse 0
  then exists st,
         (forall fuel, (1 <= fuel)%nat ->
            migrate csv_rows batch_size max_rows_to_parse fuel = Some (Returned st))
         /\ csv_lines_iterator st = Created csv_rows
         /\ insert_calls st = [[]]
         /\ total_rows_parsed st = 0
         /\ total_rows_inserted st = 0
  else (forall fuel, migrate csv_rows batch_size max_rows_to_parse fuel = None)
       /\ forall n : nat, exists st,
            state_after_turns validate batch_size max_rows_to_parse n
              (initial_state csv_rows)
            = Some st
            /\ csv_lines_iterator st = Created csv_rows
            /\ insert_calls st = replicate n []
            /\ total_rows_parsed st = 0
            /\ total_rows_inserted st = 0.
Proof.
  intros Hcap. destruct (limit_reached max_rows_to_parse 0) eqn:Hlim.
  - pose proof (body_insert_break validate batch_size max_rows_to_parse
                  (initial_state csv_rows) Hcap Hlim) as Hbody.
    name_next_state Hbody st1.
    exists (after_loop batch_size st1). split; [|by vm_compute].
    intros [|fuel] Hle; [lia|].
    unfold migrate_craigslist_records_csv_from_zip_to_db.
    by rewrite while_true_S, Hbody.
  - split; [intros fuel; by apply while_true_no_capacity_no_row|].
    intros n.
    destruct (turns_without_capacity batch_size max_rows_to_parse n
                (initial_state csv_rows) Hcap Hlim eq_refl eq_refl eq_refl)
      as (st & Hturns & Hit & Hcalls & Hparsed & Hins).
    by exists st.
Qed.

(** X7. On an entry without any row, not even a header row, the
    [RuntimeError] of the reader leaves the driver at the first turn of the
    loop, before any call of the inserter. On an entry with a header row
    only the driver returns without a call of the inserter, both counters
    being 0. *)
Theorem driver_on_entry_without_data csv_headers batch_size max_rows_to_parse :
  0 < batch_size ->
  (exists st,
     (forall fuel, (1 <= fuel)%nat ->
        migrate_craigslist_records_csv_from_zip_to_db validate [] batch_size
          max_rows_to_parse fuel
        = Some (Raised RuntimeError st))
     /\ insert_calls st = [] /\ total_rows_parsed st = 0)
  /\ (exists st,
        (forall fuel, (1 <= fuel)%nat ->
           migrate_craigslist_records_csv_from_zip_to_db validate [csv_headers]
             batch_size max_rows_to_parse fuel
           = Some (Returned st))
        /\ insert_calls st = []
        /\ total_rows_parsed st = 0
        /\ total_rows_inserted st = 0).
Proof.
  intros Hpos. split.
  - pose proof (body_raise validate batch_size max_rows_to_parse
                  (initial_state []) Closed RuntimeError Hpos eq_refl) as Hbody.
    eexists. split.
    { intros [|fuel] Hle; [lia|].
      unfold migrate_craigslist_records_csv_from_zip_to_db.
      by rewrite while_true_S, Hbody. }
    split; reflexivity.
  - pose proof (body_stop validate batch_size max_rows_to_parse
                  (initial_state [csv_headers]) Closed Hpos eq_refl) as Hbody.
    name_next_state Hbody st1.
    exists (after_loop batch_size st1). split; [|by vm_compute].
    intros [|fuel] Hle; [lia|].
    unfold migrate_craigslist_records_csv_from_zip_to_db.
    by rewrite while_true_S, Hbody.
Qed.

(** *** What every run with a positive capacity keeps *)

(** X8. With a positive batch capacity the driver ends, and every batch
    that it passed to the inserter holds at least one record and at most
    [batch_size] records: it inserts no empty batch and no batch beyond
    the capacity, whatever the CSV and the limit, also when the reader
    raises. *)
Theorem inserted_batches_are_within_capacity csv_headers lines batch_size
    max_rows_to_parse :
  0 < batch_size ->
  exists o,
    (forall fuel, (2 * length lines + 2 <= fuel)%nat ->
       migrate (csv_headers :: lines) batch_size max_rows_to_parse fuel = Some o)
    /\ Forall (fun batch => 0 < Z.of_nat (length batch) <= batch_size)
         (insert_calls (outcome_state o)).
Proof.
  intros Hpos.
  destruct (run_ends validate batch_size max_rows_to_parse csv_headers Hpos lines)
    as (o & Hrun & Hends).
  exists o. split; [exact Hrun|].
  assert (forall calls : list (list CraigslistVehicleRecord),
    Forall (fun batch => Z.of_nat (length batch) = batch_size) calls ->
    Forall (fun batch => 0 < Z.of_nat (length batch) <= batch_size) calls) as Hfull.
  { intros calls H. eapply Forall_impl; [exact H|]. simpl. intros batch. lia. }
  destruct Hends as [st full tail _ _ Hf Htail Hcalls _ _ _
                    |st consumed rest full last _ _ _ _ Hf Hcalls _ _ _ _
                    |e st consumed line rest _ _ _ _ Hf _ _ _]; simpl;
    rewrite ?Hcalls.
  - apply Forall_app. split; [by apply Hfull|].
    destruct tail; simpl; [constructor|]. repeat constructor; simpl in *; lia.
  - apply Forall_app in Hf as [Hf Hlast].
    apply Forall_app. split; [by apply Hfull|].
    apply Hfull. apply Forall_cons. split; [by inversion Hlast|exact Hlast].
  - by apply Hfull.
Qed.

(** X9. With a positive batch capacity the driver ends, and its count of
    inserted rows is the number of records in the batches that it passed
    to the inserter. When it returns, that count is its count of parsed
    rows, unless the limit stopped the loop, in which case it is the count
    of parsed rows plus [batch_size]. When the reader raises, the parsed
    rows are the inserted ones and those left in the current batch. *)
Theorem counters_account_for_inserted_batches csv_headers lines batch_size
    max_rows_to_parse :
  0 < batch_size ->
  exists o,
    (forall fuel, (2 * length lines + 2 <= fuel)%nat ->
       migrate (csv_headers :: lines) batch_size max_rows_to_parse fuel = Some o)
    /\ total_rows_inserted (outcome_state o)
       = Z.of_nat (length (concat (insert_calls (outcome_state o))))
    /\ match o with
       | Returned st =>
           total_rows_inserted st = total_rows_parsed st
           \/ (limit_reached max_rows_to_parse (total_rows_parsed st) = true
               /\ total_rows_inserted st = total_rows_parsed st + batch_size)
       | Raised _ st =>
           total_rows_parsed st
           = total_rows_inserted st + Z.of_nat (length (current_batch st))
       end.
Proof.
  intros Hpos.
  destruct (run_ends validate batch_size max_rows_to_parse csv_headers Hpos lines)
    as (o & Hrun & Hends).
  exists o. split; [exact Hrun|].
  destruct Hends as [st full tail _ Hrecs _ _ Hcalls Hparsed Hins _
                    |st consumed rest full last _ _ _ Hrecs Hf Hcalls Hparsed Hins Hlim _
                    |e st consumed line rest _ _ _ Hrecs _ _ Hparsed Hins]; simpl.
  - split; [|by left].
    rewrite Hins, Hparsed, <- Hrecs, Hcalls, concat_app, !length_app.
    by destruct tail; simpl; rewrite ?app_nil_r.
  - split; [|by right].
    apply Forall_app in Hf as [_ Hlast]. inversion Hlast as [|? ? Hlen _]; subst.
    rewrite Hins, Hparsed, <- Hrecs, Hcalls, !concat_app, !length_app. simpl.
    rewrite !app_nil_r, length_app. lia.
  - split; [exact Hins|]. rewrite Hparsed, Hins, <- Hrecs, length_app. lia.
Qed.

(** X10. When the reader raises on a line, the driver does not insert the
    batch that it was filling. With a positive capacity, on a CSV whose
    lines [consumed] are read without error and are followed by a line
    without a cell for [cylinders], and with a limit not reached on the
    records of [consumed], the [KeyError] leaves the driver; the batches
    passed to the inserter are full batches only, and the records that
    validated after the last full batch stay in the current batch: they
    are counted as parsed and never inserted. *)
Theorem reader_error_leaves_current_batch_uninserted csv_headers consumed line rest
    batch_size max_rows_to_parse :
  0 < batch_size ->
  Forall (readable_line csv_headers) consumed ->
  "cylinders" ∉ take (length line) csv_headers ->
  limit_reached max_rows_to_parse
    (Z.of_nat (length (validated csv_headers consumed))) = false ->
  exists st,
    (forall fuel, (2 * length (consumed ++ line :: rest) + 2 <= fuel)%nat ->
       migrate (csv_headers :: consumed ++ line :: rest) batch_size
         max_rows_to_parse fuel
       = Some (Raised (KeyError "cylinders") st))
    /\ Forall (fun batch => Z.of_nat (length batch) = batch_size) (insert_calls st)
    /\ concat (insert_calls st) ++ current_batch st = validated csv_headers consumed
    /\ Z.of_nat (length (current_batch st)) < batch_size
    /\ total_rows_parsed st = Z.of_nat (length (validated csv_headers consumed))
    /\ total_rows_inserted st = Z.of_nat (length (concat (insert_calls st))).
Proof.
  intros Hpos Hread Hline Hlimit.
  pose proof (unreadable_line _ _ Hline) as Hbad.
  destruct (run_ends validate batch_size max_rows_to_parse csv_headers Hpos
              (consumed ++ line :: rest)) as (o & Hrun & Hends).
  remember (consumed ++ line :: rest) as lines eqn:Hlines.
  destruct Hends as [st full tail Hall _ _ _ _ _ _ _
                    |st consumed' rest' full last Heq Hread' _ _ _ _ Hparsed _ Hreached _
                    |e st consumed' line' rest' Heq Hread' Hline' Hrecs Hfull Hroom
                       Hparsed Hins].
  - (* the reader cannot be exhausted *)
    subst lines. apply Forall_app in Hall as [_ Hall].
    apply Forall_cons in Hall as [Hall _]. contradiction.
  - (* the limit cannot stop the loop before the line *)
    subst lines.
    destruct (prefix_before_first_failure _ _ _ _ _ _ Hread' Hbad (eq_sym Heq))
      as [d ->].
    rewrite Hparsed in Hreached.
    rewrite (limit_reached_mono _ _ _ Hlimit) in Hreached; [discriminate|].
    unfold validated_records. rewrite omap_app, length_app. lia.
  - subst lines.
    destruct (first_failure_unique _ _ _ _ _ _ _ Hread Hbad Hread'
                (raising_line _ _ _ Hline') Heq) as (<- & <- & <-).
    rewrite (normalize_line_KeyError _ _ Hline) in Hline'. injection Hline' as <-.
    by exists st.
Qed.

Lemma full_batches_nat batch_size (calls : list (list CraigslistVehicleRecord)) :
  Forall (fun batch => Z.of_nat (length batch) = batch_size) calls ->
  Forall (fun batch => length batch = Z.to_nat batch_size) calls.
Proof. intros H. eapply Forall_impl; [exact H|]. simpl. intros batch. lia. Qed.

Lemma limit_reached_Some (m p : Z) :
  0 < m -> limit_reached (Some m) p = true <-> m <= p.
Proof.
  intros Hm. simpl. destruct (Z.eqb_spec m 0); [lia|]. simpl. apply Z.leb_le.
Qed.

(** X11. A limit takes effect only when a full batch has been inserted,
    and the batch that was just inserted is then inserted once more. With
    a positive capacity and a limit [m > 0], let [batch_size * q] be the
    first multiple of the capacity that is at least [m]. On lines that the
    reader accepts and that hold at least [batch_size * q] rows that
    validate, the driver returns after parsing exactly [batch_size * q]
    rows; it leaves the lines after them unread; the batches it passed to
    the inserter are the batches of the parsed records followed by the
    last of them a second time, and it counts [batch_size * q +
    batch_size] rows as inserted. *)
Theorem limit_stops_after_full_batch_and_reinserts_it csv_headers lines batch_size
    (m q : Z) :
  0 < batch_size ->
  0 < m ->
  batch_size * (q - 1) < m <= batch_size * q ->
  Forall (readable_line csv_headers) lines ->
  batch_size * q <= Z.of_nat (length (validated csv_headers lines)) ->
  exists st consumed rest last,
    (forall fuel, (2 * length lines + 2 <= fuel)%nat ->
       migrate (csv_headers :: lines) batch_size (Some m) fuel = Some (Returned st))
    /\ lines = consumed ++ rest
    /\ remaining (csv_lines_iterator st) = rest
    /\ Z.of_nat (length (validated csv_headers consumed)) = batch_size * q
    /\ total_rows_parsed st = batch_size * q
    /\ total_rows_inserted st = batch_size * q + batch_size
    /\ list.last (batches (Z.to_nat batch_size) [] (validated csv_headers consumed))
       = Some last
    /\ insert_calls st
       = batches (Z.to_nat batch_size) [] (validated csv_headers consumed) ++ [last].
Proof.
  intros Hpos Hm Hq Hread Hlen.
  destruct (run_ends validate batch_size (Some m) csv_headers Hpos lines)
    as (o & Hrun & Hends).
  destruct Hends as [st full tail _ Hrecs Hfull Htail _ _ _ Hlim
                    |st consumed rest full last Heq _ Hrest Hrecs Hfull Hcalls
                       Hparsed Hins Hreached Hnot
                    |e st consumed line rest Heq _ Hline _ _ _ _ _].
  - (* the reader cannot be exhausted: a full batch reaches the limit first *)
    exfalso. pose proof (full_batches_length batch_size full Hfull) as Hsize.
    rewrite <- Hrecs, length_app in Hlen.
    assert (q <= Z.of_nat (length full)) as Hfullq by nia.
    assert (full <> []) as Hne by (intros ->; simpl in *; nia).
    specialize (Hlim Hne). apply not_true_iff_false in Hlim. apply Hlim.
    apply limit_reached_Some; [done|]. nia.
  - pose proof (full_batches_length batch_size _ Hfull) as Hsize.
    rewrite Hrecs, length_app in Hsize. simpl in Hsize.
    rewrite Hparsed in Hreached, Hnot. apply limit_reached_Some in Hreached; [|done].
    assert (Z.of_nat (length full) + 1 = q) as Hfullq.
    { destruct full as [|batch full]; [simpl in *; nia|].
      specialize (Hnot ltac:(done)). apply not_true_iff_false in Hnot.
      rewrite limit_reached_Some in Hnot by done. simpl in *. nia. }
    assert (batches (Z.to_nat batch_size) [] (validated csv_headers consumed)
            = full ++ [last]) as Hbatches.
    { rewrite <- Hrecs, <- (app_nil_r (concat (full ++ [last]))).
      rewrite batches_of_full; [apply app_nil_r|lia|by apply full_batches_nat|simpl; lia]. }
    exists st, consumed, rest, last. split; [exact Hrun|].
    split; [exact Heq|]. split; [exact Hrest|]. split; [nia|].
    split; [nia|]. split; [nia|]. rewrite Hbatches. split; [apply last_snoc|].
    by rewrite Hcalls, <- app_assoc.
  - (* the reader cannot raise *)
    exfalso. subst lines. apply Forall_app in Hread as [_ Hread].
    apply Forall_cons in Hread as [Hread _]. by apply (raising_line _ _ _ Hline).
Qed.

(** X12. A limit that is not reached at the last full batch of the input
    has no effect, and without a limit this is always so. With a positive
    capacity, on lines that the reader accepts with [v] rows that
    validate, if the limit is not reached at the greatest multiple of
    [batch_size] that is at most [v], the driver returns having passed to
    the inserter the batches of all the validated records, and both its
    counters are [v]. *)
Theorem limit_beyond_last_full_batch_has_no_effect csv_headers lines batch_size
    max_rows_to_parse :
  0 < batch_size ->
  Forall (readable_line csv_headers) lines ->
  limit_reached max_rows_to_parse
    (batch_size * (Z.of_nat (length (validated csv_headers lines)) / batch_size))
  = false ->
  exists st,
    (forall fuel, (2 * length lines + 2 <= fuel)%nat ->
       migrate (csv_headers :: lines) batch_size max_rows_to_parse fuel
       = Some (Returned st))
    /\ insert_calls st
       = batches (Z.to_nat batch_size) [] (validated csv_headers lines)
    /\ total_rows_parsed st = Z.of_nat (length (validated csv_headers lines))
    /\ total_rows_inserted st = Z.of_nat (length (validated csv_headers lines)).
Proof.
  intros Hpos Hread Hlimit.
  destruct (run_ends validate batch_size max_rows_to_parse csv_headers Hpos lines)
    as (o & Hrun & Hends).
  destruct Hends as [st full tail _ Hrecs Hfull Htail Hcalls Hparsed Hins _
                    |st consumed rest full last Heq _ _ Hrecs Hfull _
                       Hparsed _ Hreached _
                    |e st consumed line rest Heq _ Hline _ _ _ _ _].
  - exists st. split; [exact Hrun|]. split; [|split; [exact Hparsed|lia]].
    rewrite <- Hrecs, batches_of_full;
      [exact Hcalls|lia|by apply full_batches_nat|lia].
  - (* the limit cannot stop the loop *)
    exfalso. pose proof (full_batches_length batch_size _ Hfull) as Hsize.
    rewrite Hrecs in Hsize. rewrite Hparsed, Hsize in Hreached.
    rewrite (limit_reached_mono _ _ _ Hlimit) in Hreached; [discriminate|].
    apply Z.mul_le_mono_nonneg_l; [lia|]. apply Z.div_le_lower_bound; [lia|].
    rewrite <- Hsize. subst lines. unfold validated_records.
    rewrite omap_app, length_app. lia.
  - (* the reader cannot raise *)
    exfalso. subst lines. apply Forall_app in Hread as [_ Hread].
    apply Forall_cons in Hread as [Hread _]. by apply (raising_line _ _ _ Hline).
Qed.

End DriverExtras.

Lemma driver_without_capacity_reads_no_row_witness :
  migrate_craigslist_records_csv_from_zip_to_db example_validate
    [example_headers; ["100"; "4 cylinders"]] 0 (Some 5) 1000
  = None
  /\ exists st,
       state_after_turns example_validate 0 (Some 5) 3
         (initial_state [example_headers; ["100"; "4 cylinders"]])
       = Some st
       /\ csv_lines_iterator st
          = Created [example_headers; ["100"; "4 cylinders"]]
       /\ insert_calls st = [[]; []; []]
       /\ total_rows_parsed st = 0
       /\ total_rows_inserted st = 0.
Proof.
  destruct (driver_without_capacity_reads_no_row example_validate
              [example_headers; ["100"; "4 cylinders"]] 0 (Some 5) ltac:(lia))
    as [Hrun Hturns].
  split; [exact (Hrun 1000%nat)|exact (Hturns 3%nat)].
Defined.

Lemma driver_on_entry_without_data_witness :
  exists st,
    migrate_craigslist_records_csv_from_zip_to_db example_validate [] 10 None 1
    = Some (Raised RuntimeError st)
    /\ insert_calls st = [].
Proof.
  destruct (driver_on_entry_without_data example_validate example_headers 10 None)
    as [(st & Hrun & Hcalls & _) _]; [reflexivity|].
  exists st. split; [apply Hrun; lia|exact Hcalls].
Defined.

Lemma driver_ends_with_positive_capacity_witness :
  exists o,
    migrate_craigslist_records_csv_from_zip_to_db example_validate
      [example_headers; ["100"; "4 cylinders"]; []] 1 (Some 7) 8
    = Some o.
Proof.
  destruct (driver_ends_with_positive_capacity example_validate
              [example_headers; ["100"; "4 cylinders"]; []] 1 (Some 7))
    as [o Hrun]; [reflexivity|].
  exists o. apply Hrun. simpl. lia.
Defined.

Lemma inserted_batches_are_within_capacity_witness :
  exists o,
    migrate_craigslist_records_csv_from_zip_to_db example_validate
      [example_headers; ["100"; "4 cylinders"]; ["200"; ""]; ["300"; "6"]]
      2 (Some 1) 8
    = Some o
    /\ Forall (fun batch => 0 < Z.of_nat (length batch) <= 2)
         (insert_calls (outcome_state o)).
Proof.
  destruct (inserted_batches_are_within_capacity example_validate example_headers
              [["100"; "4 cylinders"]; ["200"; ""]; ["300"; "6"]] 2 (Some 1))
    as (o & Hrun & Hsizes); [reflexivity|].
  exists o. split; [apply Hrun; simpl; lia|exact Hsizes].
Defined.

Lemma counters_account_for_inserted_batches_witness :
  exists o,
    migrate_craigslist_records_csv_from_zip_to_db example_validate
      [example_headers; ["100"; "4 cylinders"]; ["200"; ""]; ["300"; "6"]]
      2 (Some 1) 8
    = Some o
    /\ total_rows_inserted (outcome_state o)
       = Z.of_nat (length (concat (insert_calls (outcome_state o)))).
Proof.
  destruct (counters_account_for_inserted_batches example_validate example_headers
              [["100"; "4 cylinders"]; ["200"; ""]; ["300"; "6"]] 2 (Some 1))
    as (o & Hrun & Hcount & _); [reflexivity|].
  exists o. split; [apply Hrun; simpl; lia|exact Hcount].
Defined.

Lemma reader_error_leaves_current_batch_uninserted_witness :
  exists st,
    migrate_craigslist_records_csv_from_zip_to_db example_validate
      [example_headers; ["100"; "4 cylinders"]; ["200"; "6 cylinders"];
       ["300"; "8 cylinders"]; []; ["400"; "4 cylinders"]] 2 None 12
    = Some (Raised (KeyError "cylinders") st)
    /\ Z.of_nat (length (current_batch st)) < 2
    /\ total_rows_inserted st = Z.of_nat (length (concat (insert_calls st))).
Proof.
  destruct (reader_error_leaves_current_batch_uninserted example_validate
              example_headers
              [["100"; "4 cylinders"]; ["200"; "6 cylinders"]; ["300"; "8 cylinders"]]
              [] [["400"; "4 cylinders"]] 2 None)
    as (st & Hrun & _ & _ & Hroom & _ & Hins).
  - reflexivity.
  - repeat apply Forall_cons_2; [| | |apply Forall_nil_2].
    + exists (example_record "100" (VInt 4)). vm_compute. reflexivity.
    + exists (example_record "200" (VInt 6)). vm_compute. reflexivity.
    + exists (example_record "300" (VInt 8)). vm_compute. reflexivity.
  - simpl. apply not_elem_of_nil.
  - reflexivity.
  - exists st. split; [apply Hrun; simpl; lia|]. split; [exact Hroom|exact Hins].
Defined.

Lemma limit_stops_after_full_batch_and_reinserts_it_witness :
  exists st,
    migrate_craigslist_records_csv_from_zip_to_db example_validate
      [example_headers; ["100"; "4 cylinders"]; ["200"; "6 cylinders"];
       ["300"; "8 cylinders"]] 1 (Some 2) 8
    = Some (Returned st)
    /\ total_rows_parsed st = 2
    /\ total_rows_inserted st = 3.
Proof.
  destruct (limit_stops_after_full_batch_and_reinserts_it example_validate
              example_headers
              [["100"; "4 cylinders"]; ["200"; "6 cylinders"]; ["300"; "8 cylinders"]]
              1 2 2)
    as (st & consumed & rest & last & Hrun & _ & _ & _ & Hparsed & Hins & _).
  - reflexivity.
  - reflexivity.
  - lia.
  - repeat apply Forall_cons_2; [| | |apply Forall_nil_2].
    + exists (example_record "100" (VInt 4)). vm_compute. reflexivity.
    + exists (example_record "200" (VInt 6)). vm_compute. reflexivity.
    + exists (example_record "300" (VInt 8)). vm_compute. reflexivity.
  - vm_compute. discriminate.
  - exists st. split; [apply Hrun; simpl; lia|]. split; [exact Hparsed|exact Hins].
Defined.

Lemma limit_beyond_last_full_batch_has_no_effect_witness :
  exists st,
    migrate_craigslist_records_csv_from_zip_to_db example_validate
      [example_headers; ["100"; "4 cylinders"]; ["200"; "6 cylinders"];
       ["300"; "8 cylinders"]] 2 (Some 3) 8
    = Some (Returned st)
    /\ length <$> insert_calls st = [2; 1]%nat.
Proof.
  destruct (limit_beyond_last_full_batch_has_no_effect example_validate
              example_headers
              [["100"; "4 cylinders"]; ["200"; "6 cylinders"]; ["300"; "8 cylinders"]]
              2 (Some 3))
    as (st & Hrun & Hcalls & _).
  - reflexivity.
  - repeat apply Forall_cons_2; [| | |apply Forall_nil_2].
    + exists (example_record "100" (VInt 4)). vm_compute. reflexivity.
    + exists (example_record "200" (VInt 6)). vm_compute. reflexivity.
    + exists (example_record "300" (VInt 8)). vm_compute. reflexivity.
  - vm_compute. reflexivity.
  - exists st. split; [apply Hrun; simpl; lia|].
    rewrite Hcalls. vm_compute. reflexivity.
Defined.
